(** * Nightingale zoom mixin (withZoom): coordinate and zoom-synchronisation engine

    A shallow embedding of the [WithZoom] class (the mixin returned by
    [withZoom]) together with the pieces of d3 it drives: the two-point linear
    scale of d3-scale and the transform algebra of d3-zoom.

    Numbers.  JavaScript numbers are modelled as exact rationals extended with
    [+Infinity], [-Infinity] and [NaN].  Rounding is abstracted (arithmetic on
    finite values is exact) and the sign of zero is not tracked: a division of
    a finite non-zero value by zero yields the infinity with the sign of the
    numerator.  Every arithmetic result is kept in lowest terms ([Qred]), so
    that closed computations can be compared with [=]; for arbitrary inputs,
    which need not be in lowest terms, values are compared with [num_eq]
    (equality of rationals). *)

From Stdlib Require Import QArith Qminmax Lqa Lia List Bool String Arith.
From Stdlib Require Import DecimalString Permutation Sorted.
Import ListNotations.

Local Open Scope Q_scope.

(* ------------------------------------------------------------------ *)
(** ** JavaScript numbers *)

Module Num.

Inductive num : Type :=
| NaN
| PInf
| NInf
| Fin (q : Q).

Definition zero : num := Fin 0.
Definition one : num := Fin 1.
Definition two : num := Fin 2.
Definition minus_one : num := Fin (-1).

(** Three-way sign of a rational, used by the rules for infinities. *)
Definition Qsgn (q : Q) : comparison := q ?= 0.

Definition isNaN (a : num) : bool :=
  match a with NaN => true | _ => false end.

Definition is_fin (a : num) : bool :=
  match a with Fin _ => true | _ => false end.

(** [-a] *)
Definition neg (a : num) : num :=
  match a with
  | NaN => NaN
  | PInf => NInf
  | NInf => PInf
  | Fin q => Fin (- q)
  end.

(** [a + b] *)
Definition add (a b : num) : num :=
  match a, b with
  | NaN, _ | _, NaN => NaN
  | PInf, NInf | NInf, PInf => NaN
  | PInf, _ | _, PInf => PInf
  | NInf, _ | _, NInf => NInf
  | Fin p, Fin q => Fin (Qred (p + q))
  end.

(** [a - b] *)
Definition sub (a b : num) : num := add a (neg b).

(** The infinity with the sign [s]; [NaN] for a zero sign. *)
Definition inf_of (s : comparison) : num :=
  match s with Gt => PInf | Lt => NInf | Eq => NaN end.

Definition sgn (a : num) : comparison :=
  match a with
  | NaN => Eq
  | PInf => Gt
  | NInf => Lt
  | Fin q => Qsgn q
  end.

Definition sgn_mul (s t : comparison) : comparison :=
  match s, t with
  | Eq, _ | _, Eq => Eq
  | Gt, Gt | Lt, Lt => Gt
  | _, _ => Lt
  end.

(** [a * b] *)
Definition mul (a b : num) : num :=
  match a, b with
  | NaN, _ | _, NaN => NaN
  | Fin p, Fin q => Fin (Qred (p * q))
  | _, _ => inf_of (sgn_mul (sgn a) (sgn b))
  end.

(** [a / b]; a zero divisor counts as [+0]. *)
Definition div (a b : num) : num :=
  match a, b with
  | NaN, _ | _, NaN => NaN
  | Fin p, Fin q => if Qeq_bool q 0 then inf_of (Qsgn p) else Fin (Qred (p / q))
  | Fin _, _ => Fin 0
  | _, Fin q => if Qeq_bool q 0 then a else inf_of (sgn_mul (sgn a) (Qsgn q))
  | _, _ => NaN
  end.

(** [a <= b] and [a < b]: false as soon as an operand is [NaN]. *)
Definition leb (a b : num) : bool :=
  match a, b with
  | NaN, _ | _, NaN => false
  | NInf, _ | _, PInf => true
  | PInf, _ | _, NInf => false
  | Fin p, Fin q => Qle_bool p q
  end.

Definition ltb (a b : num) : bool :=
  match a, b with
  | NaN, _ | _, NaN => false
  | PInf, _ | _, NInf => false
  | NInf, _ | _, PInf => true
  | Fin p, Fin q => negb (Qle_bool q p)
  end.

(** [Math.max(a, b)] and [Math.min(a, b)]: [NaN] if an operand is [NaN]. *)
Definition max (a b : num) : num :=
  match a, b with
  | NaN, _ | _, NaN => NaN
  | _, _ => if leb a b then b else a
  end.

Definition min (a b : num) : num :=
  match a, b with
  | NaN, _ | _, NaN => NaN
  | _, _ => if leb a b then a else b
  end.

(** [a === 0] *)
Definition is_zero (a : num) : bool :=
  match a with Fin q => Qeq_bool q 0 | _ => false end.

(** [a === 1] *)
Definition is_one (a : num) : bool :=
  match a with Fin q => Qeq_bool q 1 | _ => false end.

(** Truthiness of a number: [0] and [NaN] are falsy. *)
Definition truthy (a : num) : bool :=
  match a with
  | NaN => false
  | Fin q => negb (Qeq_bool q 0)
  | _ => true
  end.

(** [v || 0] for a property that holds a number or is [undefined]. *)
Definition or0 (v : option num) : num :=
  match v with
  | Some a => if truthy a then a else zero
  | None => zero
  end.

(** The same JavaScript value. *)
Definition num_eq (a b : num) : Prop :=
  match a, b with
  | NaN, NaN | PInf, PInf | NInf, NInf => True
  | Fin p, Fin q => p == q
  | _, _ => False
  end.

Definition num_eqb (a b : num) : bool :=
  match a, b with
  | NaN, NaN | PInf, PInf | NInf, NInf => true
  | Fin p, Fin q => Qeq_bool p q
  | _, _ => false
  end.

End Num.
Export Num.

Declare Scope num_scope.
Delimit Scope num_scope with num.
Infix "+" := Num.add : num_scope.
Infix "-" := Num.sub : num_scope.
Infix "*" := Num.mul : num_scope.
Infix "/" := Num.div : num_scope.
Notation "- a" := (Num.neg a) : num_scope.
Infix "<=?" := Num.leb : num_scope.
Infix "<?" := Num.ltb : num_scope.
Infix "=~" := Num.num_eq (at level 70, no associativity) : num_scope.

Arguments Num.neg : simpl never.
Arguments Num.add : simpl never.
Arguments Num.sub : simpl never.
Arguments Num.mul : simpl never.
Arguments Num.div : simpl never.
Arguments Num.leb : simpl never.
Arguments Num.ltb : simpl never.
Arguments Num.max : simpl never.
Arguments Num.min : simpl never.
Arguments Num.or0 : simpl never.

Local Open Scope num_scope.

(* ------------------------------------------------------------------ *)
(** ** d3-scale: the two-point linear scale

    [scaleLinear().domain([d0, d1]).range([r0, r1])], never clamped.  Only
    this shape is ever built by the mixin. *)

Module D3Scale.

Record ScaleLinear : Type := mkScale {
  domain : num * num;
  range : num * num
}.

(** [normalize(a, b)]: [(b -= a) ? x => (x - a) / b : constant(isNaN(b) ? NaN : 0.5)] *)
Definition normalize (a b : num) (x : num) : num :=
  let b' := b - a in
  if truthy b' then (x - a) / b'
  else if isNaN b' then NaN else Fin (1 # 2).

(** [interpolateNumber(a, b)]: [t => a * (1 - t) + b * t] *)
Definition interpolateNumber (a b : num) (t : num) : num :=
  a * (one - t) + b * t.

(** [bimap(domain, range, interpolate)] *)
Definition bimap (dom rng : num * num) (x : num) : num :=
  let '(d0, d1) := dom in
  let '(r0, r1) := rng in
  if d1 <? d0 then interpolateNumber r1 r0 (normalize d1 d0 x)
  else interpolateNumber r0 r1 (normalize d0 d1 x).

(** [scale(x)]; on [NaN] d3 answers [undefined], which is [NaN] in every
    arithmetic context it is used in here. *)
Definition apply (s : ScaleLinear) (x : num) : num :=
  if isNaN x then NaN else bimap (domain s) (range s) x.

(** [scale.invert(y)] *)
Definition invert (s : ScaleLinear) (y : num) : num :=
  bimap (range s) (domain s) y.

(** [scale.copy()]: scales are values here, a copy is the same value. *)
Definition copy (s : ScaleLinear) : ScaleLinear := s.

(** [scale.domain(d)] on a copy. *)
Definition with_domain (s : ScaleLinear) (d : num * num) : ScaleLinear :=
  mkScale d (range s).

End D3Scale.
Export D3Scale.

(* ------------------------------------------------------------------ *)
(** ** d3-zoom: transforms and the zoom behaviour *)

Module D3Zoom.

Record Transform : Type := mkTransform {
  k : num;
  x : num;
  y : num
}.

Definition zoomIdentity : Transform := mkTransform one zero zero.

(** [transform.scale(k)]: [k === 1 ? this : new Transform(this.k * k, this.x, this.y)] *)
Definition scale (t : Transform) (k' : num) : Transform :=
  if is_one k' then t else mkTransform (k t * k') (x t) (y t).

(** [transform.translate(x, y)]:
    [x === 0 & y === 0 ? this : new Transform(this.k, this.x + this.k * x, this.y + this.k * y)] *)
Definition translate (t : Transform) (dx dy : num) : Transform :=
  if is_zero dx && is_zero dy then t
  else mkTransform (k t) (x t + k t * dx) (y t + k t * dy).

(** [transform.invertX(x)]: [(x - this.x) / this.k] *)
Definition invertX (t : Transform) (px : num) : num := (px - x t) / k t.

(** [transform.rescaleX(x)]:
    [x.copy().domain(x.range().map(this.invertX, this).map(x.invert, x))] *)
Definition rescaleX (t : Transform) (s : ScaleLinear) : ScaleLinear :=
  let '(r0, r1) := range s in
  with_domain (copy s) (invert s (invertX t r0), invert s (invertX t r1)).

(** The configuration of a zoom behaviour ([d3zoom()]). *)
Record ZoomBehavior : Type := mkZoom {
  scaleExtent : num * num;
  translateExtent : (num * num) * (num * num);
  extent : (num * num) * (num * num)
}.

(** The scale a gesture asks for is clamped to the scale extent:
    [Math.max(scaleExtent[0], Math.min(scaleExtent[1], k))]. *)
Definition clampScale (z : ZoomBehavior) (k' : num) : num :=
  Num.max (fst (scaleExtent z)) (Num.min (snd (scaleExtent z)) k').

(** [transform.invertY(y)]: [(y - this.y) / this.k] *)
Definition invertY (t : Transform) (py : num) : num := (py - y t) / k t.

(** [a || b] on numbers. *)
Definition or_else (a b : num) : num := if truthy a then a else b.

(** The default constraint d3-zoom puts on the transform of a gesture
    ([defaultConstrain(transform, extent, translateExtent)]): the viewport
    extent, seen through the transform, is pushed back inside the translate
    extent. *)
Definition defaultConstrain (t : Transform)
    (ext trExt : (num * num) * (num * num)) : Transform :=
  let dx0 := invertX t (fst (fst ext)) - fst (fst trExt) in
  let dx1 := invertX t (fst (snd ext)) - fst (snd trExt) in
  let dy0 := invertY t (snd (fst ext)) - snd (fst trExt) in
  let dy1 := invertY t (snd (snd ext)) - snd (snd trExt) in
  translate t
    (if dx0 <? dx1 then (dx0 + dx1) / two
     else or_else (Num.min zero dx0) (Num.max zero dx1))
    (if dy0 <? dy1 then (dy0 + dy1) / two
     else or_else (Num.min zero dy0) (Num.max zero dy1)).

(** A transform a gesture can arrive at under the behaviour [z]: its scale
    is within the scale extent and the constraint leaves it alone. *)
Definition admissible (z : ZoomBehavior) (t : Transform) : bool :=
  num_eqb (clampScale z (k t)) (k t)
  && (let t' := defaultConstrain t (extent z) (translateExtent z) in
      num_eqb (k t') (k t) && num_eqb (x t') (x t) && num_eqb (y t') (y t)).

End D3Zoom.
Export D3Zoom.

Arguments D3Scale.apply : simpl never.
Arguments D3Scale.invert : simpl never.
Arguments D3Zoom.scale : simpl never.
Arguments D3Zoom.translate : simpl never.
Arguments D3Zoom.rescaleX : simpl never.

(* ------------------------------------------------------------------ *)
(** ** The state of a [WithZoom] element *)

(** The rendering surface: the d3 selection handed to the [svg] setter, with
    what d3-zoom keeps on its node.  The selection is taken to hold one node. *)
Record Surface : Type := mkSurface {
  zoom_bound : bool;                 (* [svg.call(zoom)] has run *)
  node_zoom : option Transform       (* the node's [__zoom] property *)
}.

(** What the element does to its environment, oldest first.  [Rebuilt],
    [OriginRefreshed], [ApplyEntered] and [ZoomEvent] are ghost entries that
    record the order of internal steps. *)
Inductive Effect : Type :=
| Rebuilt                                   (* [_updateScaleDomain] assigned [xScale] *)
| OriginRefreshed                           (* [_originXScale] was reassigned *)
| FrameRequested                            (* [requestAnimationFrame(cb)] *)
| ApplyEntered                              (* the bound [_applyZoomTranslation] was called *)
| ZoomEvent (t : Transform)                 (* d3-zoom emitted "zoom" with [t] *)
| Change (display_start display_end : num)  (* [dispatchEvent(new CustomEvent("change", ...))] *)
| Rendered                                  (* [super.render()] *)
| SuperConnected.                           (* [super.connectedCallback()] *)

Record State : Type := mkState {
  (* reactive properties of the layers below (withDimensions, withPosition,
     withMargin); [None] is [undefined] *)
  length : option num;
  width : num;
  display_start : option num;
  display_end : option num;
  margin_left : num;
  margin_right : num;
  (* fields of WithZoom *)
  _originXScale : option ScaleLinear;
  _xScale : option ScaleLinear;
  _zoom : option ZoomBehavior;
  _svg : option Surface;
  dontDispatch : bool;
  (* [let aboutToApply] captured by the constructor's closure *)
  aboutToApply : bool;
  (* animation-frame callbacks waiting for the next frame; every callback the
     element registers is the same closure *)
  frames : nat;
  effects : list Effect
}.

Definition set_originXScale (v : option ScaleLinear) (st : State) : State :=
  mkState (length st) (width st) (display_start st) (display_end st)
    (margin_left st) (margin_right st) v (_xScale st) (_zoom st) (_svg st)
    (dontDispatch st) (aboutToApply st) (frames st) (effects st).

Definition set_xScale (v : option ScaleLinear) (st : State) : State :=
  mkState (length st) (width st) (display_start st) (display_end st)
    (margin_left st) (margin_right st) (_originXScale st) v (_zoom st) (_svg st)
    (dontDispatch st) (aboutToApply st) (frames st) (effects st).

Definition set_zoom (v : option ZoomBehavior) (st : State) : State :=
  mkState (length st) (width st) (display_start st) (display_end st)
    (margin_left st) (margin_right st) (_originXScale st) (_xScale st) v (_svg st)
    (dontDispatch st) (aboutToApply st) (frames st) (effects st).

Definition set__svg (v : option Surface) (st : State) : State :=
  mkState (length st) (width st) (display_start st) (display_end st)
    (margin_left st) (margin_right st) (_originXScale st) (_xScale st) (_zoom st) v
    (dontDispatch st) (aboutToApply st) (frames st) (effects st).

Definition set_dontDispatch (v : bool) (st : State) : State :=
  mkState (length st) (width st) (display_start st) (display_end st)
    (margin_left st) (margin_right st) (_originXScale st) (_xScale st) (_zoom st) (_svg st)
    v (aboutToApply st) (frames st) (effects st).

Definition set_aboutToApply (v : bool) (st : State) : State :=
  mkState (length st) (width st) (display_start st) (display_end st)
    (margin_left st) (margin_right st) (_originXScale st) (_xScale st) (_zoom st) (_svg st)
    (dontDispatch st) v (frames st) (effects st).

Definition set_frames (v : nat) (st : State) : State :=
  mkState (length st) (width st) (display_start st) (display_end st)
    (margin_left st) (margin_right st) (_originXScale st) (_xScale st) (_zoom st) (_svg st)
    (dontDispatch st) (aboutToApply st) v (effects st).

Definition emit (e : Effect) (st : State) : State :=
  mkState (length st) (width st) (display_start st) (display_end st)
    (margin_left st) (margin_right st) (_originXScale st) (_xScale st) (_zoom st) (_svg st)
    (dontDispatch st) (aboutToApply st) (frames st) (effects st ++ [e]).

(** Modelled from the spec: [getWidthWithMargins] belongs to the withMargin
    layer, which is not part of the sources at hand.  The spec describes the
    drawable width as "width minus left/right margin". *)
Definition getWidthWithMargins (st : State) : num :=
  width st - margin_left st - margin_right st.

(** The element as the constructor leaves it, for given property values. *)
Definition constructor (len : option num) (w : num) (ds de : option num)
    (ml mr : num) : State :=
  mkState len w ds de ml mr None None None None false false 0%nat [].

(* ------------------------------------------------------------------ *)
(** ** The methods of [WithZoom] *)

Definition ATTRIBUTES_THAT_TRIGGER_REFRESH : list string :=
  ["length"; "width"; "height"]%string.

(** [get xScale], [get zoom], [get svg] *)
Definition xScale (st : State) : option ScaleLinear := _xScale st.
Definition zoom (st : State) : option ZoomBehavior := _zoom st.
Definition svg (st : State) : option Surface := _svg st.

Definition _updateScaleDomain (st : State) : State :=
  emit Rebuilt
    (set_xScale
       (Some (mkScale (one, or0 (length st) + one) (zero, getWidthWithMargins st)))
       st).

Definition _initZoom (st : State) : State :=
  set_zoom
    (Some (mkZoom (one, PInf)
             ((zero, zero), (getWidthWithMargins st, zero))
             ((zero, zero), (getWidthWithMargins st, zero))))
    st.

(** The [detail] of the "change" event built in [zoomed]. *)
Definition change_detail (len : option num) (start end_ : num) : num * num :=
  (Num.max one start,
   Num.min (or0 len) (Num.max (end_ - one) (start + one))).

(** [zoomed(d3Event)], with [t = d3Event.transform]. *)
Definition zoomed (t : Transform) (st : State) : State :=
  let st := emit (ZoomEvent t) st in
  let st := match _originXScale st with
            | Some origin => set_xScale (Some (rescaleX t origin)) st
            | None => st
            end in
  let '(start, end_) := match xScale st with
                        | Some s => domain s
                        | None => (zero, zero)
                        end in
  if dontDispatch st || match xScale st with Some _ => false | None => true end
  then st
  else
    let '(ds, de) := change_detail (length st) start end_ in
    emit (Change ds de) st.

(** [selection.call(zoom.transform, t)] on the surface: d3-zoom stores [t] as
    the node's transform, without constraining it, and emits "zoom" to the
    listener registered by [_initZoom]. *)
Definition call_zoom_transform (sv : Surface) (t : Transform) (st : State) : State :=
  zoomed t (set__svg (Some (mkSurface (zoom_bound sv) (Some t))) st).

(** [zoomRefreshed()] *)
Definition zoomRefreshed (st : State) : State := emit Rendered st.

(** The prototype method [applyZoomTranslation], which the constructor binds
    as [_applyZoomTranslation]. *)
Definition _applyZoomTranslation (st : State) : State :=
  let st := emit ApplyEntered st in
  match svg st, _originXScale st with
  | Some sv, Some origin =>
      let k := Num.max one
                 (or0 (length st)
                  / (one + or0 (display_end st) - or0 (display_start st))) in
      let dx := - apply origin (or0 (display_start st)) in
      let st := set_dontDispatch true st in
      let st := match zoom st with
                | Some _ =>
                    call_zoom_transform sv
                      (translate (scale zoomIdentity k) dx zero) st
                | None => st
                end in
      let st := set_dontDispatch false st in
      zoomRefreshed st
  | _, _ => st
  end.

(** The instance property [applyZoomTranslation] installed by the
    constructor: the debounced request. *)
Definition applyZoomTranslation (st : State) : State :=
  if aboutToApply st then st
  else emit FrameRequested
         (set_frames (S (frames st)) (set_aboutToApply true st)).

(** The callback handed to [requestAnimationFrame]. *)
Definition frame_callback (st : State) : State :=
  _applyZoomTranslation (set_aboutToApply false st).

(** The next animation frame: the callbacks registered so far run, in order;
    callbacks registered while they run wait for the frame after. *)
Definition run_frame (st : State) : State :=
  Nat.iter (frames st) frame_callback (set_frames 0 st).

(** [set svg(svg)] *)
Definition set_svg (v : option Surface) (st : State) : State :=
  match v, _zoom st with
  | Some sv, Some _ =>
      let st := set__svg (Some sv) st in
      (* [svg.call(this._zoom)]: binds the gesture listeners and gives the
         node the identity transform unless it already has one *)
      let st := set__svg
                  (Some (mkSurface true
                           (Some (match node_zoom sv with
                                  | Some t => t
                                  | None => zoomIdentity
                                  end)))) st in
      applyZoomTranslation st
  | _, _ => st
  end.

Definition connectedCallback (st : State) : State :=
  let st := _updateScaleDomain st in
  let st := match xScale st with
            | Some s => emit OriginRefreshed (set_originXScale (Some (copy s)) st)
            | None => st
            end in
  let st := _initZoom st in
  emit SuperConnected st.

(** [render()] *)
Definition render (st : State) : State :=
  emit Rendered (applyZoomTranslation st).

Definition getXFromSeqPosition (st : State) (position : num) : num :=
  match xScale st with
  | None => minus_one
  | Some s => margin_left st + apply s position
  end.

Definition getSingleBaseWidth (st : State) : num :=
  match xScale st with
  | None => minus_one
  | Some s => apply s two - apply s one
  end.

(** A pan or zoom gesture on the bound surface: d3-zoom stores the
    transform it arrived at on the node and emits "zoom". *)
Definition gesture (t : Transform) (st : State) : State :=
  match svg st with
  | Some sv => call_zoom_transform sv t st
  | None => st
  end.

Definition option_string_eqb (a b : option string) : bool :=
  match a, b with
  | None, None => true
  | Some s, Some t => String.eqb s t
  | _, _ => false
  end.

(** [newValue === "null" ? null : newValue] *)
Definition null_as_absent (newValue : option string) : option string :=
  match newValue with
  | Some s => if String.eqb s "null" then None else newValue
  | None => None
  end.

Section AttributeChanged.

(** [super.attributeChangedCallback]: the base element (Lit) reflects the
    attribute into the reactive property of the same name.  It is a
    parameter of the model. *)
Variable super_attributeChangedCallback :
  string -> option string -> option string -> State -> State.

Definition attributeChangedCallback (name : string)
    (oldValue newValue : option string) (st : State) : State :=
  let st := super_attributeChangedCallback name oldValue newValue st in
  match zoom st with
  | None => st
  | Some _ =>
      let newV := null_as_absent newValue in
      if negb (option_string_eqb oldValue newV) then
        let st :=
          if existsb (String.eqb name) ATTRIBUTES_THAT_TRIGGER_REFRESH then
            let st := _updateScaleDomain st in
            emit OriginRefreshed
              (set_originXScale (option_map copy (xScale st)) st)
          else st in
        applyZoomTranslation st
      else st
  end.

End AttributeChanged.

(** An integer as a number. *)
Definition N (z : Z) : num := Fin (inject_Z z).

(** The "change" notifications among the effects, oldest first. *)
Fixpoint changes (l : list Effect) : list (num * num) :=
  match l with
  | [] => []
  | Change a b :: l' => (a, b) :: changes l'
  | _ :: l' => changes l'
  end.

(** How many times the bound [_applyZoomTranslation] has been entered. *)
Fixpoint applied (l : list Effect) : nat :=
  match l with
  | [] => 0
  | ApplyEntered :: l' => S (applied l')
  | _ :: l' => applied l'
  end.

(** The visible range read back from the live scale: what [zoomed] would put
    in the detail of a "change" event. *)
Definition visibleRange (st : State) : option (num * num) :=
  match xScale st with
  | Some s => Some (change_detail (length st) (fst (domain s)) (snd (domain s)))
  | None => None
  end.

(** The transform kept on the surface's node. *)
Definition current_transform (st : State) : option Transform :=
  match svg st with
  | Some sv => node_zoom sv
  | None => None
  end.

(** The scheduler is consistent: a frame callback is waiting exactly when
    [aboutToApply] is set. *)
Definition scheduler_ok (st : State) : Prop :=
  frames st = if aboutToApply st then 1%nat else 0%nat.

(** An element that went through [connectedCallback] and was then given a
    fresh surface. *)
Definition connected (len : option num) (w : num) (ds de : option num)
    (ml mr : num) : State :=
  set_svg (Some (mkSurface false None))
    (connectedCallback (constructor len w ds de ml mr)).

(** An instance of the base callback for the examples: the converted value
    [v] of a [length] attribute lands in the [length] property. *)
Definition reflect_length (v : option num) (name : string)
    (_ _ : option string) (st : State) : State :=
  if String.eqb name "length" then
    mkState v (width st) (display_start st) (display_end st)
      (margin_left st) (margin_right st) (_originXScale st) (_xScale st)
      (_zoom st) (_svg st) (dontDispatch st) (aboutToApply st) (frames st)
      (effects st)
  else st.

(* ------------------------------------------------------------------ *)
(** ** nightingale-links: the [contacts] setter *)

Module Links.

(** What a caller may assign to [contacts]: declared as a string or an array
    of number arrays; anything else reaches the [else] branch. *)
Inductive LinksData : Type :=
| DataString (s : string)
| DataArray (rows : list (list num))
| DataOther.

(** The completion of a call that may throw. *)
Inductive Completion (A : Type) : Type :=
| Normal (a : A)
| Throw (message : string).
Arguments Normal {A} a.
Arguments Throw {A} message.

Section Contacts.

(** The parser module (links-parser) is a parameter. *)
Variable ContactObject : Type.
Variable parseToRowData : string -> list (list num).
Variable filterContacts : list (list num) -> num -> num -> list (list num).
Variable getContactsObject : list (list num) -> ContactObject.

Record LinksState : Type := mkLinks {
  minDistance : num;
  minProbability : num;
  _rawData : option (list (list num));
  contacts : option ContactObject;
  tracks_created : nat               (* calls of [createTrack] that went through *)
}.

Definition createTrack (st : LinksState) : LinksState :=
  match contacts st with
  | None => st
  | Some _ => mkLinks (minDistance st) (minProbability st) (_rawData st)
                (contacts st) (S (tracks_created st))
  end.

Definition set_contacts (data : LinksData) (st : LinksState)
  : Completion LinksState :=
  let raw := match data with
             | DataString s => Some (parseToRowData s)
             | DataArray rows => Some rows
             | DataOther => None
             end in
  match raw with
  | None => Throw "data is not in a valid format"
  | Some rows =>
      let st := mkLinks (minDistance st) (minProbability st) (Some rows)
                  (contacts st) (tracks_created st) in
      let st := mkLinks (minDistance st) (minProbability st) (_rawData st)
                  (Some (getContactsObject
                           (filterContacts rows (minDistance st) (minProbability st))))
                  (tracks_created st) in
      Normal (createTrack st)
  end.

End Contacts.

End Links.

(* ------------------------------------------------------------------ *)
(** ** Derived quantities and proof tactics *)

(** The scale factor [k] computed by [_applyZoomTranslation]. *)
Definition scale_factor (st : State) : num :=
  Num.max one
    (or0 (length st) / (one + or0 (display_end st) - or0 (display_start st))).

(** The transform a programmatic application computes in state [st] against
    the origin scale [origin]. *)
Definition programmatic_transform (st : State) (origin : ScaleLinear) : Transform :=
  translate
    (scale zoomIdentity
       (Num.max one
          (or0 (length st)
           / (one + or0 (display_end st) - or0 (display_start st)))))
    (- apply origin (or0 (display_start st))) zero.

(** What one programmatic application appends to the effects. *)
Definition apply_effects (st : State) : list Effect :=
  match svg st, _originXScale st with
  | Some _, Some origin =>
      match zoom st with
      | Some _ =>
          [ApplyEntered;
           ZoomEvent
             (translate
                (scale zoomIdentity
                   (Num.max one
                      (or0 (length st)
                       / (one + or0 (display_end st) - or0 (display_start st)))))
                (- apply origin (or0 (display_start st))) zero);
           Rendered]
      | None => [ApplyEntered; Rendered]
      end
  | _, _ => [ApplyEntered]
  end.

(** The element with other values in [display-start] and [display-end]. *)
Definition with_range (ds de : option num) (st : State) : State :=
  mkState (length st) (width st) ds de (margin_left st) (margin_right st)
    (_originXScale st) (_xScale st) (_zoom st) (_svg st) (dontDispatch st)
    (aboutToApply st) (frames st) (effects st).

(** Closed statements are settled by evaluation, conjunct by conjunct. *)
Ltac by_evaluation :=
  cbv zeta;
  repeat match goal with |- _ /\ _ => split end;
  vm_compute; reflexivity.

(* ------------------------------------------------------------------ *)
(** ** What can happen to an element between two looks at it *)

Section Operations.

(** [super.attributeChangedCallback], as in [attributeChangedCallback]. *)
Variable super_attributeChangedCallback :
  string -> option string -> option string -> State -> State.

(** The entry points of the element: what the page, the user and the
    browser can do to it.  The bound [_applyZoomTranslation] is not one of
    them; it only runs from an animation frame. *)
Inductive Op : Type :=
| OpConnect                                            (* [connectedCallback()] *)
| OpAttribute (name : string) (oldValue newValue : option string)
| OpSetSvg (v : option Surface)                        (* [el.svg = v] *)
| OpRender                                             (* [render()] *)
| OpGesture (t : Transform)                            (* a pan or zoom gesture *)
| OpFrame.                                             (* the next animation frame *)

Definition run_op (op : Op) (st : State) : State :=
  match op with
  | OpConnect => connectedCallback st
  | OpAttribute name o n =>
      attributeChangedCallback super_attributeChangedCallback name o n st
  | OpSetSvg v => set_svg v st
  | OpRender => render st
  | OpGesture t => gesture t st
  | OpFrame => run_frame st
  end.

(** The operations of a list, first to last. *)
Fixpoint run_ops (ops : list Op) (st : State) : State :=
  match ops with
  | [] => st
  | op :: ops' => run_ops ops' (run_op op st)
  end.

Fixpoint count_frames (ops : list Op) : nat :=
  match ops with
  | [] => 0
  | OpFrame :: ops' => S (count_frames ops')
  | _ :: ops' => count_frames ops'
  end.

Fixpoint count_gestures (ops : list Op) : nat :=
  match ops with
  | [] => 0
  | OpGesture _ :: ops' => S (count_gestures ops')
  | _ :: ops' => count_gestures ops'
  end.

End Operations.

(* ------------------------------------------------------------------ *)
(** ** nightingale-links: contact points, selection and highlight events *)

Module LinksTrack.

(** Residue numbers are taken to be natural numbers; [`${fr}`] and the
    default comparison of [Array.prototype.sort] then work on their decimal
    digits. *)
Definition toString (n : nat) : string :=
  NilZero.string_of_uint (Nat.to_uint n).

Definition to_num (n : nat) : num := N (Z.of_nat n).

(** [array.join(",")] *)
Fixpoint join (l : list string) : string :=
  match l with
  | [] => EmptyString
  | [s] => s
  | s :: l' => (s ++ "," ++ join l')%string
  end.

(** The default order of [sort()]: the elements are compared as strings,
    by code unit. *)
Definition js_leb (a b : nat) : bool := String.leb (toString a) (toString b).

Fixpoint js_insert (a : nat) (l : list nat) : list nat :=
  match l with
  | [] => [a]
  | b :: l' => if js_leb a b then a :: l else b :: js_insert a l'
  end.

(** [array.sort()] on residue numbers: the sorted arrangement is unique,
    because distinct numbers have distinct digits. *)
Fixpoint js_sort (l : list nat) : list nat :=
  match l with
  | [] => []
  | a :: l' => js_insert a (js_sort l')
  end.

(** The detail of the event built by [getHighlightEvent]; the event itself
    is a bubbling "change". *)
Record HighlightEvent : Type := mkHighlight {
  type : string;
  highlight : option string
}.

(** [getHighlightEvent(type, target, residues)]; an array, even an empty
    one, is truthy. *)
Definition getHighlightEvent (type : string) (residues : option (list nat))
  : HighlightEvent :=
  mkHighlight type
    (match residues with
     | Some rs => Some (join (map (fun fr => (toString fr ++ ":" ++ toString fr)%string) rs))
     | None => None
     end).

(** Modelled from the spec: the type [ContactObject] is declared in
    [./declarations], which is not part of the sources at hand; the fields
    are the ones [nightingale-links.ts] reads and writes.  [contacts] maps a
    residue to the set of its contacts, kept in insertion order. *)
Record ContactObject : Type := mkContacts {
  contacts : list (nat * list nat);
  maxNumberOfContacts : nat;
  selected : option nat;
  isHold : bool
}.

(** [contacts[d]] *)
Fixpoint contacts_of (d : nat) (c : list (nat * list nat)) : option (list nat) :=
  match c with
  | [] => None
  | (k', v) :: c' => if Nat.eqb k' d then Some v else contacts_of d c'
  end.

(** The part of a [NightingaleLinks] element the handlers work on. *)
Record Element : Type := mkElement {
  height : num;
  engine : State;                      (* the zoom layer underneath *)
  contactsObj : option ContactObject;  (* [#contacts] *)
  contactPoints : bool;                (* the circles were created *)
  dispatched : list HighlightEvent;    (* events dispatched, oldest first *)
  refreshes : nat                      (* runs of [refresh()] past its guard *)
}.

Definition set_contactsObj (c : option ContactObject) (el : Element) : Element :=
  mkElement (height el) (engine el) c (contactPoints el) (dispatched el)
    (refreshes el).

Definition dispatchEvent (e : HighlightEvent) (el : Element) : Element :=
  mkElement (height el) (engine el) (contactsObj el) (contactPoints el)
    (dispatched el ++ [e]) (refreshes el).

(** How a handler ends: normally, or with the [TypeError] that
    [Array.from(undefined)] raises; either way the element is as the
    statements run so far left it. *)
Inductive Result : Type :=
| Done (el : Element)
| Raised (el : Element).

Definition after (r : Result) : Element :=
  match r with Done el => el | Raised el => el end.

(** [refresh()]: the redrawing is abstracted to a count. *)
Definition refresh (el : Element) : Element :=
  match contactsObj el with
  | Some _ =>
      if contactPoints el then
        mkElement (height el) (engine el) (contactsObj el) (contactPoints el)
          (dispatched el) (S (refreshes el))
      else el
  | None => el
  end.

Definition _dispatchSelectNode (d : nat) (el : Element) : Result :=
  match contactsObj el with
  | None => Done el
  | Some c =>
      let c := mkContacts (contacts c) (maxNumberOfContacts c) (Some d) (isHold c) in
      let el := set_contactsObj (Some c) el in
      match contacts_of d (contacts c) with
      | None => Raised el
      | Some cs =>
          Done (dispatchEvent
                  (getHighlightEvent "mouseover" (Some (js_sort (cs ++ [d]))))
                  el)
      end
  end.

(** The "mouseover" listener of a contact point. *)
Definition mouseover (d : nat) (el : Element) : Result :=
  if match contactsObj el with Some c => isHold c | None => false end
  then Done el
  else match _dispatchSelectNode d el with
       | Done el => Done (refresh el)
       | Raised el => Raised el
       end.

(** The "mouseout" listener. *)
Definition mouseout (el : Element) : Element :=
  match contactsObj el with
  | None => el
  | Some c =>
      if isHold c then el
      else
        let c := mkContacts (contacts c) (maxNumberOfContacts c) None (isHold c) in
        let el := set_contactsObj (Some c) el in
        let el := dispatchEvent (getHighlightEvent "mouseout" None) el in
        refresh el
  end.

(** The "click" listener. *)
Definition click (d : nat) (el : Element) : Result :=
  match contactsObj el with
  | None => Done el
  | Some c =>
      let c := mkContacts (contacts c) (maxNumberOfContacts c) (selected c)
                 (negb (isHold c)) in
      let c := if negb (isHold c)
               then mkContacts (contacts c) (maxNumberOfContacts c) None (isHold c)
               else c in
      let el := set_contactsObj (Some c) el in
      match _dispatchSelectNode d el with
      | Done el => Done (refresh el)
      | Raised el => Raised el
      end
  end.

(** [getRadius(isSelected)]; 0.6 and 0.4 are the rationals 3/5 and 2/5. *)
Definition getRadius (el : Element) (isSelected : bool) : num :=
  (if isSelected then Fin (3 # 5) else Fin (2 # 5))
  * Num.max two (Num.min (height el) (getSingleBaseWidth (engine el))).



End LinksTrack.

(* ------------------------------------------------------------------ *)
(** ** nightingale-links: [willUpdate] *)

Module LinksUpdate.

Section WillUpdate.

(** The parser module (links-parser) is a parameter, as for the [contacts]
    setter. *)
Variable ContactObject : Type.
Variable filterContacts : list (list num) -> num -> num -> list (list num).
Variable getContactsObject : list (list num) -> ContactObject.

(** [willUpdate(changedProperties)], with the names of the changed
    properties. *)
Definition willUpdate (changedProperties : list string)
    (st : Links.LinksState ContactObject) : Links.LinksState ContactObject :=
  if existsb (String.eqb "minDistance") changedProperties
     || existsb (String.eqb "minProbability") changedProperties
  then
    match Links._rawData ContactObject st with
    | Some rows =>
        Links.createTrack ContactObject
          (Links.mkLinks ContactObject
             (Links.minDistance ContactObject st)
             (Links.minProbability ContactObject st)
             (Links._rawData ContactObject st)
             (Some (getContactsObject
                      (filterContacts rows
                         (Links.minDistance ContactObject st)
                         (Links.minProbability ContactObject st))))
             (Links.tracks_created ContactObject st))
    | None => st
    end
  else st.

(** An assignment to the reactive properties [minDistance] and
    [minProbability]. *)
Definition set_thresholds (d p : num) (st : Links.LinksState ContactObject)
  : Links.LinksState ContactObject :=
  Links.mkLinks ContactObject d p (Links._rawData ContactObject st)
    (Links.contacts ContactObject st) (Links.tracks_created ContactObject st).

End WillUpdate.

End LinksUpdate.

(* ------------------------------------------------------------------ *)
(** ** nightingale-variation: [processData] *)

Module Variation.

Section ProcessData.

(** The data handed to the element, and the modules that transform it
    ([./proteinAPI], [./processVariants]), are parameters. *)
Variable Data : Type.
Variable Processed : Type.
Variable transformData : option Data -> option Data.
Variable processVariants : Data -> Processed.

Record VariationState : Type := mkVariation {
  proteinAPI : bool;
  data : option Data;                 (* [#data]; [None] is [null] or [undefined] *)
  processedData : option Processed
}.

(** [processData(data)] *)
Definition processData (d : option Data) (st : VariationState) : VariationState :=
  let st := mkVariation (proteinAPI st) d (processedData st) in
  let transformedData := if proteinAPI st then transformData d else d in
  match transformedData with
  | Some t => mkVariation (proteinAPI st) (data st) (Some (processVariants t))
  | None => st
  end.

End ProcessData.

End Variation.

(* ------------------------------------------------------------------ *)
(** ** Basic facts about effects *)

Lemma changes_app (l1 l2 : list Effect) :
  changes (l1 ++ l2) = changes l1 ++ changes l2.
Proof.
  induction l1 as [|e l1 IH]; simpl; [reflexivity|].
  destruct e; simpl; rewrite IH; reflexivity.
Qed.

Lemma applied_app (l1 l2 : list Effect) :
  applied (l1 ++ l2) = (applied l1 + applied l2)%nat.
Proof.
  induction l1 as [|e l1 IH]; simpl; [reflexivity|].
  destruct e; simpl; rewrite IH; reflexivity.
Qed.

(** With the latch set, the transform-change handler dispatches nothing. *)
Lemma zoomed_latched (t : Transform) (st : State) :
  dontDispatch st = true ->
  effects (zoomed t st) = effects st ++ [ZoomEvent t].
Proof.
  intros H. unfold zoomed.
  destruct (_originXScale (emit (ZoomEvent t) st)) as [o|] eqn:Ho.
  - simpl. destruct (domain (rescaleX t o)) as [a b]. simpl. rewrite H.
    reflexivity.
  - destruct (xScale (emit (ZoomEvent t) st)) as [s|] eqn:Hs.
    + destruct (domain s) as [a b]. simpl. rewrite H. reflexivity.
    + simpl. rewrite H. reflexivity.
Qed.

(** With the latch clear and an origin scale at hand, it dispatches the
    range read from the rescaled domain. *)
Lemma zoomed_unlatched (t : Transform) (st : State) (o : ScaleLinear) :
  dontDispatch st = false ->
  _originXScale st = Some o ->
  effects (zoomed t st)
  = effects st
      ++ [ZoomEvent t;
          Change (fst (change_detail (length st)
                         (fst (domain (rescaleX t o))) (snd (domain (rescaleX t o)))))
                 (snd (change_detail (length st)
                         (fst (domain (rescaleX t o))) (snd (domain (rescaleX t o)))))].
Proof.
  intros H Ho. unfold zoomed. simpl. rewrite Ho. simpl.
  destruct (domain (rescaleX t o)) as [a b]. simpl. rewrite H. simpl.
  rewrite <- app_assoc. reflexivity.
Qed.

Lemma zoomed_xScale (t : Transform) (st : State) (o : ScaleLinear) :
  _originXScale st = Some o ->
  xScale (zoomed t st) = Some (rescaleX t o).
Proof.
  intros Ho. unfold zoomed. simpl. rewrite Ho. simpl.
  destruct (domain (rescaleX t o)) as [a b]. simpl.
  destruct (dontDispatch st); reflexivity.
Qed.

Lemma _applyZoomTranslation_effects (st : State) :
  effects (_applyZoomTranslation st) = effects st ++ apply_effects st.
Proof.
  unfold _applyZoomTranslation, apply_effects, svg, zoom. simpl.
  destruct (_svg st) as [sv|] eqn:Hsv; [|reflexivity].
  destruct (_originXScale st) as [o|] eqn:Ho; [|reflexivity].
  destruct (_zoom st) as [z|] eqn:Hz; simpl; rewrite ?Hz.
  - unfold call_zoom_transform. simpl. rewrite zoomed_latched by reflexivity.
    simpl. rewrite <- !app_assoc. reflexivity.
  - simpl. rewrite <- !app_assoc. reflexivity.
Qed.

Lemma apply_effects_no_change (st : State) : changes (apply_effects st) = [].
Proof.
  unfold apply_effects.
  destruct (svg st); [|reflexivity].
  destruct (_originXScale st); [|reflexivity].
  destruct (zoom st); reflexivity.
Qed.

Lemma frame_callbacks_no_change (n : nat) (st : State) :
  changes (effects (Nat.iter n frame_callback st)) = changes (effects st).
Proof.
  revert st. induction n as [|n IH]; intros st; [reflexivity|].
  rewrite Nat.iter_succ_r. rewrite IH. unfold frame_callback.
  rewrite _applyZoomTranslation_effects, changes_app, apply_effects_no_change.
  simpl. apply app_nil_r.
Qed.

(* ------------------------------------------------------------------ *)
(** ** Anti-feedback latch *)

(** C2.  A programmatic application of the visible range never emits a
    "change" notification: neither the bound [_applyZoomTranslation], nor the
    debounced request, nor the animation frame that runs the pending
    callbacks adds a [Change] to the effects.  The reason is the latch:
    [zoomed] is entered with [dontDispatch] set and then dispatches nothing,
    and the latch is clear again when the call returns. *)
Theorem programmatic_apply_never_dispatches (st : State) :
  changes (effects (_applyZoomTranslation st)) = changes (effects st)
  /\ changes (effects (applyZoomTranslation st)) = changes (effects st)
  /\ changes (effects (run_frame st)) = changes (effects st)
  /\ (forall t st', dontDispatch st' = true ->
        changes (effects (zoomed t st')) = changes (effects st'))
  /\ (forall sv o, svg st = Some sv -> _originXScale st = Some o ->
        dontDispatch (_applyZoomTranslation st) = false).
Proof.
  repeat split.
  - rewrite _applyZoomTranslation_effects, changes_app, apply_effects_no_change.
    apply app_nil_r.
  - unfold applyZoomTranslation. destruct (aboutToApply st); [reflexivity|].
    simpl. rewrite changes_app. simpl. apply app_nil_r.
  - unfold run_frame. rewrite frame_callbacks_no_change. reflexivity.
  - intros t st' H. rewrite zoomed_latched by exact H.
    rewrite changes_app. simpl. apply app_nil_r.
  - intros sv o Hsv Ho. unfold _applyZoomTranslation. simpl in *.
    unfold svg in Hsv. rewrite Hsv, Ho. reflexivity.
Qed.

(** On a connected element with a surface: the application adds no
    notification, a transform change under the latch adds none, and the
    latch is clear afterwards. *)
Lemma programmatic_apply_never_dispatches_witness :
  let st := connected (Some (N 1000)) (N 500) (Some (N 250)) (Some (N 260))
              zero zero in
  changes (effects (_applyZoomTranslation st)) = changes (effects st)
  /\ changes (effects (zoomed zoomIdentity (set_dontDispatch true st)))
     = changes (effects (set_dontDispatch true st))
  /\ dontDispatch (_applyZoomTranslation st) = false.
Proof.
  destruct (programmatic_apply_never_dispatches
              (connected (Some (N 1000)) (N 500) (Some (N 250)) (Some (N 260))
                 zero zero)) as (H1 & _ & _ & H4 & H5).
  split; [exact H1|]. split.
  - apply H4. reflexivity.
  - apply (H5 (mkSurface true (Some zoomIdentity))
             (mkScale (one, N 1000 + one) (zero, N 500 - zero - zero)));
      reflexivity.
Defined.

(* ------------------------------------------------------------------ *)
(** ** Debounced apply scheduler *)

Lemma zoomed_scheduler (t : Transform) (st : State) :
  frames (zoomed t st) = frames st
  /\ aboutToApply (zoomed t st) = aboutToApply st
  /\ _svg (zoomed t st) = _svg st
  /\ dontDispatch (zoomed t st) = dontDispatch st
  /\ _originXScale (zoomed t st) = _originXScale st.
Proof.
  unfold zoomed, xScale. simpl.
  destruct (_originXScale st) as [o|] eqn:Ho; simpl.
  - destruct (domain (rescaleX t o)); simpl.
    destruct (dontDispatch st) eqn:Hd; simpl; rewrite ?Hd, ?Ho;
      repeat split; reflexivity.
  - destruct (_xScale st) as [s|]; simpl.
    + destruct (domain s); destruct (dontDispatch st) eqn:Hd; simpl;
        rewrite ?Hd, ?Ho; repeat split; reflexivity.
    + destruct (dontDispatch st) eqn:Hd; simpl; rewrite ?Hd, ?Ho;
        repeat split; reflexivity.
Qed.

Lemma _applyZoomTranslation_scheduler (st : State) :
  frames (_applyZoomTranslation st) = frames st
  /\ aboutToApply (_applyZoomTranslation st) = aboutToApply st.
Proof.
  unfold _applyZoomTranslation, svg, zoom. simpl.
  destruct (_svg st) as [sv|]; [|split; reflexivity].
  destruct (_originXScale st) as [o|]; [|split; reflexivity].
  destruct (_zoom st) as [z|]; simpl; [|split; reflexivity].
  unfold call_zoom_transform.
  match goal with |- context [zoomed ?t ?s] =>
    destruct (zoomed_scheduler t s) as (Hf & Ha & _) end.
  rewrite Hf, Ha. split; reflexivity.
Qed.

(** A request made while one is pending is absorbed. *)
Lemma request_absorbed (st : State) :
  aboutToApply st = true -> applyZoomTranslation st = st.
Proof. intros H. unfold applyZoomTranslation. rewrite H. reflexivity. Qed.

Lemma requests_absorbed (n : nat) (st : State) :
  aboutToApply st = true -> Nat.iter n applyZoomTranslation st = st.
Proof.
  intros H. induction n as [|n IH]; [reflexivity|].
  simpl. rewrite IH. apply request_absorbed, H.
Qed.

Lemma requests_collapse (n : nat) (st : State) :
  Nat.iter (S n) applyZoomTranslation st = applyZoomTranslation st.
Proof.
  rewrite Nat.iter_succ_r.
  destruct (aboutToApply st) eqn:H.
  - rewrite request_absorbed by exact H. apply requests_absorbed, H.
  - apply requests_absorbed. unfold applyZoomTranslation. rewrite H.
    reflexivity.
Qed.

(** The scheduler is consistent after construction and stays so under every
    method of the element, so that the next theorem applies in every state an
    element can reach. *)
Lemma scheduler_ok_invariant :
  (forall len w ds de ml mr, scheduler_ok (constructor len w ds de ml mr))
  /\ (forall st, scheduler_ok st -> scheduler_ok (applyZoomTranslation st))
  /\ (forall st, scheduler_ok st -> scheduler_ok (_applyZoomTranslation st))
  /\ (forall st, scheduler_ok st -> scheduler_ok (run_frame st))
  /\ (forall st v, scheduler_ok st -> scheduler_ok (set_svg v st))
  /\ (forall st, scheduler_ok st -> scheduler_ok (connectedCallback st))
  /\ (forall st, scheduler_ok st -> scheduler_ok (render st))
  /\ (forall st t, scheduler_ok st -> scheduler_ok (gesture t st))
  /\ (forall super name o n st,
        (forall st', scheduler_ok st' -> scheduler_ok (super name o n st')) ->
        scheduler_ok st ->
        scheduler_ok (attributeChangedCallback super name o n st)).
Proof.
  assert (Hreq : forall st, scheduler_ok st -> scheduler_ok (applyZoomTranslation st)).
  { intros st H. unfold scheduler_ok, applyZoomTranslation in *.
    destruct (aboutToApply st) eqn:Ha; [rewrite Ha; exact H|].
    simpl. rewrite H. reflexivity. }
  assert (Happ : forall st, scheduler_ok st -> scheduler_ok (_applyZoomTranslation st)).
  { intros st H. unfold scheduler_ok in *.
    destruct (_applyZoomTranslation_scheduler st) as (-> & ->). exact H. }
  assert (Hzoomed : forall st t, scheduler_ok st -> scheduler_ok (zoomed t st)).
  { intros st t H. unfold scheduler_ok in *.
    destruct (zoomed_scheduler t st) as (-> & -> & _). exact H. }
  split; [intros; reflexivity|]. split; [exact Hreq|]. split; [exact Happ|].
  split.
  { intros st H. unfold scheduler_ok, run_frame in *.
    destruct (aboutToApply st) eqn:Ha; rewrite H; simpl.
    - unfold frame_callback.
      destruct (_applyZoomTranslation_scheduler
                  (set_aboutToApply false (set_frames 0 st))) as (-> & ->).
      reflexivity.
    - rewrite Ha. reflexivity. }
  split.
  { intros st v H. unfold set_svg.
    destruct v as [sv|]; [|exact H]. destruct (_zoom st); [|exact H].
    apply Hreq. exact H. }
  split; [intros st H; exact H|].
  split.
  { intros st H. unfold render. apply Hreq in H. exact H. }
  split.
  { intros st t H. unfold gesture. destruct (svg st); [|exact H].
    unfold call_zoom_transform. apply Hzoomed. exact H. }
  intros super name o n st Hsuper H. unfold attributeChangedCallback.
  specialize (Hsuper st H).
  destruct (zoom (super name o n st)); [|exact Hsuper].
  destruct (negb (option_string_eqb o (null_as_absent n))); [|exact Hsuper].
  apply Hreq.
  destruct (existsb (String.eqb name) ATTRIBUTES_THAT_TRIGGER_REFRESH);
    exact Hsuper.
Qed.

(** C5.  From a consistent scheduler, [n >= 2] debounced requests made before
    the frame fires leave exactly one callback waiting and run nothing; the
    frame then enters the bound [_applyZoomTranslation] exactly once and
    leaves the scheduler idle.  A request made while the flag is set changes
    nothing at all. *)
Theorem debounce_coalesces (n : nat) (st : State) :
  (2 <= n)%nat ->
  scheduler_ok st ->
  let st' := Nat.iter n applyZoomTranslation st in
  frames st' = 1%nat
  /\ aboutToApply st' = true
  /\ applied (effects st') = applied (effects st)
  /\ applied (effects (run_frame st')) = S (applied (effects st))
  /\ frames (run_frame st') = 0%nat
  /\ aboutToApply (run_frame st') = false
  /\ applyZoomTranslation st' = st'.
Proof.
  intros Hn Hok st'.
  destruct n as [|n]; [lia|].
  assert (E : st' = applyZoomTranslation st) by apply requests_collapse.
  assert (Hf : frames st' = 1%nat /\ aboutToApply st' = true
               /\ applied (effects st') = applied (effects st)).
  { rewrite E. unfold applyZoomTranslation. red in Hok.
    destruct (aboutToApply st) eqn:Ha.
    - rewrite Ha. auto.
    - simpl. rewrite Hok, applied_app. simpl. repeat split; lia. }
  destruct Hf as (Hf & Ha & Hc).
  repeat split; try assumption.
  - unfold run_frame. rewrite Hf. simpl. unfold frame_callback.
    rewrite _applyZoomTranslation_effects, applied_app. simpl.
    rewrite Hc. unfold apply_effects, svg, zoom. simpl.
    destruct (_svg st'); [|simpl; lia].
    destruct (_originXScale st'); [|simpl; lia].
    destruct (_zoom st'); simpl; lia.
  - unfold run_frame. rewrite Hf. simpl. unfold frame_callback.
    destruct (_applyZoomTranslation_scheduler
                (set_aboutToApply false (set_frames 0 st'))) as (H1 & _).
    rewrite H1. reflexivity.
  - unfold run_frame. rewrite Hf. simpl. unfold frame_callback.
    destruct (_applyZoomTranslation_scheduler
                (set_aboutToApply false (set_frames 0 st'))) as (_ & H2).
    rewrite H2. reflexivity.
  - apply request_absorbed, Ha.
Qed.

(** Three requests on a freshly connected element with a surface. *)
Lemma debounce_coalesces_witness :
  let st := connectedCallback
              (constructor (Some (N 1000)) (N 500) (Some (N 250)) (Some (N 260))
                 zero zero) in
  let st' := Nat.iter 3 applyZoomTranslation st in
  frames st' = 1%nat
  /\ aboutToApply st' = true
  /\ applied (effects st') = applied (effects st)
  /\ applied (effects (run_frame st')) = S (applied (effects st))
  /\ frames (run_frame st') = 0%nat
  /\ aboutToApply (run_frame st') = false
  /\ applyZoomTranslation st' = st'.
Proof.
  apply (debounce_coalesces 3
           (connectedCallback
              (constructor (Some (N 1000)) (N 500) (Some (N 250)) (Some (N 260))
                 zero zero))).
  - lia.
  - reflexivity.
Defined.

(* ------------------------------------------------------------------ *)
(** ** Arithmetic on finite numbers *)

Lemma Qeq_bool_false (a b : Q) : ~ a == b -> Qeq_bool a b = false.
Proof.
  intros H. destruct (Qeq_bool a b) eqn:E; [|reflexivity].
  apply Qeq_bool_iff in E. contradiction.
Qed.

Lemma Qle_bool_false (a b : Q) : (b < a)%Q -> Qle_bool a b = false.
Proof.
  intros H. destruct (Qle_bool a b) eqn:E; [|reflexivity].
  apply Qle_bool_iff in E. lra.
Qed.

Lemma Qle_bool_true (a b : Q) : (a <= b)%Q -> Qle_bool a b = true.
Proof. intros H. apply Qle_bool_iff, H. Qed.

Lemma Qle_bool_lt (a b : Q) : Qle_bool a b = false -> (b < a)%Q.
Proof.
  intros H. apply Qnot_le_lt. intros E. apply Qle_bool_iff in E. congruence.
Qed.

(** Turn the boolean tests in the context into rational (in)equalities and
    strip the normalisations. *)
Ltac q_facts :=
  repeat match goal with
  | H : Qle_bool _ _ = true |- _ => apply Qle_bool_iff in H
  | H : Qle_bool _ _ = false |- _ => apply Qle_bool_lt in H
  | H : Qeq_bool _ _ = true |- _ => apply Qeq_bool_iff in H
  | H : Qeq_bool _ _ = false |- _ => apply Qeq_bool_neq in H
  | H : context [Qred _] |- _ => rewrite Qred_correct in H
  end.

(** Split on the next rational test of the goal. *)
Ltac q_test :=
  match goal with
  | |- context [Qle_bool ?a ?b] => destruct (Qle_bool a b) eqn:?
  | |- context [Qeq_bool ?a ?b] => destruct (Qeq_bool a b) eqn:?
  end.

Ltac q_close :=
  q_facts;
  first [ reflexivity | discriminate | exact I
        | apply Qle_bool_iff; rewrite ?Qred_correct; lra
        | rewrite ?Qred_correct; lra ].

Ltac num_unfold :=
  unfold change_detail, Num.max, Num.min, Num.leb, Num.ltb, Num.sub, Num.add,
    Num.neg, Num.mul, Num.div, isNaN, one, zero in *.

Ltac num_step := cbv beta iota; cbn [fst snd negb].

Lemma div_Fin (p q : Q) : ~ q == 0 -> Fin p / Fin q = Fin (Qred (p / q)).
Proof. intros H. unfold Num.div. rewrite Qeq_bool_false by exact H. reflexivity. Qed.

Lemma sub_Fin (p q : Q) : Fin p - Fin q = Fin (Qred (p - q)).
Proof. reflexivity. Qed.

Lemma add_Fin (p q : Q) : Fin p + Fin q = Fin (Qred (p + q)).
Proof. reflexivity. Qed.

Lemma mul_Fin (p q : Q) : Fin p * Fin q = Fin (Qred (p * q)).
Proof. reflexivity. Qed.

Lemma truthy_Fin (q : Q) : ~ q == 0 -> truthy (Fin q) = true.
Proof. intros H. simpl. rewrite Qeq_bool_false by exact H. reflexivity. Qed.

Lemma max_Fin_r (p q : Q) : (p <= q)%Q -> Num.max (Fin p) (Fin q) = Fin q.
Proof. intros H. unfold Num.max, Num.leb. rewrite Qle_bool_true by exact H. reflexivity. Qed.

Lemma max_Fin_l (p q : Q) : (q < p)%Q -> Num.max (Fin p) (Fin q) = Fin p.
Proof. intros H. unfold Num.max, Num.leb. rewrite Qle_bool_false by exact H. reflexivity. Qed.

Lemma min_Fin_l (p q : Q) : (p <= q)%Q -> Num.min (Fin p) (Fin q) = Fin p.
Proof. intros H. unfold Num.min, Num.leb. rewrite Qle_bool_true by exact H. reflexivity. Qed.

Lemma min_Fin_r (p q : Q) : (q < p)%Q -> Num.min (Fin p) (Fin q) = Fin q.
Proof. intros H. unfold Num.min, Num.leb. rewrite Qle_bool_false by exact H. reflexivity. Qed.

(** [Math.min] picks its second argument when it is not above the first;
    on a tie both are the same number. *)
Lemma min_Fin_r_le (p q : Q) :
  (q <= p)%Q -> exists r, Num.min (Fin p) (Fin q) = Fin r /\ r == q.
Proof.
  intros H. unfold Num.min, Num.leb.
  destruct (Qle_bool p q) eqn:E.
  - apply Qle_bool_iff in E. exists p. split; [reflexivity | lra].
  - exists q. split; reflexivity.
Qed.

Lemma or0_Fin (q : Q) : ~ q == 0 -> or0 (Some (Fin q)) = Fin q.
Proof. intros H. unfold or0. rewrite truthy_Fin by exact H. reflexivity. Qed.

(** [v || 0] is the value [v] itself unless [v] is [NaN]. *)
Lemma or0_num (a : num) : isNaN a = false -> or0 (Some a) =~ a.
Proof.
  destruct a as [| | |q]; simpl; try discriminate; intros _; try exact I.
  unfold or0. simpl. destruct (Qeq_bool q 0) eqn:E; simpl.
  - apply Qeq_bool_iff in E. symmetry. exact E.
  - reflexivity.
Qed.

(** The two-point map on finite arguments with distinct domain ends: the
    affine function through [(d0, r0)] and [(d1, r1)], whichever way round
    the ends are. *)
Lemma bimap_Fin (d0 d1 r0 r1 v : Q) :
  ~ d0 == d1 ->
  exists q, bimap (Fin d0, Fin d1) (Fin r0, Fin r1) (Fin v) = Fin q
            /\ q == r0 + (r1 - r0) * ((v - d0) / (d1 - d0)).
Proof.
  intros Hd. unfold bimap, Num.ltb.
  assert (H01 : ~ d1 - d0 == 0) by (intros E; apply Hd; lra).
  assert (H10 : ~ d0 - d1 == 0) by (intros E; apply Hd; lra).
  assert (R01 : ~ Qred (d1 - d0) == 0) by (rewrite Qred_correct; exact H01).
  assert (R10 : ~ Qred (d0 - d1) == 0) by (rewrite Qred_correct; exact H10).
  destruct (negb (Qle_bool d0 d1)); unfold normalize, interpolateNumber, one;
    rewrite !sub_Fin.
  - rewrite truthy_Fin by exact R10. rewrite div_Fin by exact R10.
    rewrite sub_Fin, !mul_Fin, add_Fin. eexists. split; [reflexivity|].
    rewrite !Qred_correct. field. split; assumption.
  - rewrite truthy_Fin by exact R01. rewrite div_Fin by exact R01.
    rewrite sub_Fin, !mul_Fin, add_Fin. eexists. split; [reflexivity|].
    rewrite !Qred_correct. field. assumption.
Qed.

(** With both domain ends equal, the map answers the midpoint of the range. *)
Lemma bimap_degenerate (d r0 r1 v : Q) :
  exists q, bimap (Fin d, Fin d) (Fin r0, Fin r1) (Fin v) = Fin q
            /\ q == (r0 + r1) / 2.
Proof.
  unfold bimap, Num.ltb.
  rewrite Qle_bool_true by lra. simpl.
  unfold normalize. rewrite sub_Fin.
  assert (E : truthy (Fin (Qred (d - d))) = false).
  { unfold truthy. apply negb_false_iff, Qeq_bool_iff.
    rewrite Qred_correct. lra. }
  rewrite E. simpl. unfold interpolateNumber, one.
  rewrite sub_Fin, !mul_Fin, add_Fin. eexists. split; [reflexivity|].
  rewrite !Qred_correct. field.
Qed.

(** The shape of [zoomIdentity.scale(k).translate(dx, 0)] on finite
    arguments, whichever shortcuts of d3 are taken. *)
Lemma identity_scaled_translated (kq dq : Q) :
  exists k1 x1,
    k (translate (scale zoomIdentity (Fin kq)) (Fin dq) zero) = Fin k1
    /\ x (translate (scale zoomIdentity (Fin kq)) (Fin dq) zero) = Fin x1
    /\ k1 == kq /\ x1 == kq * dq.
Proof.
  unfold scale, translate, is_one, is_zero, zoomIdentity, one, zero.
  destruct (Qeq_bool kq 1) eqn:E1; destruct (Qeq_bool dq 0) eqn:E0;
    cbn [andb k x y]; rewrite ?mul_Fin, ?add_Fin;
    try (change (Qeq_bool 0 0) with true); cbn [andb k x y];
    rewrite ?mul_Fin, ?add_Fin;
    eexists; eexists; (split; [reflexivity|]); (split; [reflexivity|]);
    q_facts; rewrite ?Qred_correct; split; try lra; nra.
Qed.

(* ------------------------------------------------------------------ *)
(** ** Scale model and accessors *)

(** C7.  [_updateScaleDomain] always installs a two-point linear scale with
    domain [[1, L + 1]] and range [[0, W]], where [L] is the length, read as
    0 when it is missing or zero, and [W] is the width with the left and
    right margins subtracted.  It is total: whatever the state, a scale
    comes out.  When [L] is a non-zero number and [W] a number, the scale is
    the linear map [v |-> W * (v - 1) / L], which sends 1 to 0 and [L + 1] to
    [W]. *)
Theorem updateScaleDomain_builds_linear_map (st : State) :
  exists s,
    xScale (_updateScaleDomain st) = Some s
    /\ domain s = (one, or0 (length st) + one)
    /\ range s = (zero, getWidthWithMargins st)
    /\ getWidthWithMargins st = width st - margin_left st - margin_right st
    /\ (length st = None -> domain s = (one, one))
    /\ (forall q, length st = Some (Fin q) -> q == 0 -> domain s = (one, one))
    /\ (forall L W v,
          or0 (length st) = Fin L -> ~ L == 0 ->
          getWidthWithMargins st = Fin W ->
          exists q, apply s (Fin v) = Fin q /\ q == W * (v - 1) / L)
    /\ (forall L W,
          or0 (length st) = Fin L -> ~ L == 0 ->
          getWidthWithMargins st = Fin W ->
          apply s one =~ zero /\ apply s (Fin (L + 1)) =~ Fin W).
Proof.
  eexists. split; [reflexivity|]. simpl.
  assert (Hlin : forall L W v,
            or0 (length st) = Fin L -> ~ L == 0 ->
            getWidthWithMargins st = Fin W ->
            exists q,
              apply (mkScale (one, or0 (length st) + one)
                       (zero, getWidthWithMargins st)) (Fin v) = Fin q
              /\ q == W * (v - 1) / L).
  { intros L W v HL HL0 HW. unfold apply. simpl. rewrite HL, HW.
    unfold one, zero. rewrite add_Fin.
    destruct (bimap_Fin 1 (Qred (L + 1)) 0 W v) as (q & Hq & Eq).
    { rewrite Qred_correct. intros E. apply HL0. lra. }
    exists q. split; [exact Hq|]. rewrite Eq, Qred_correct. field.
    repeat split; try exact HL0; intros E; apply HL0; lra. }
  split; [reflexivity|]. split; [reflexivity|]. split; [reflexivity|].
  split; [intros H; rewrite H; reflexivity|].
  split.
  { intros q H E. rewrite H. unfold or0. simpl.
    rewrite (proj2 (Qeq_bool_iff q 0) E). reflexivity. }
  split; [exact Hlin|].
  intros L W HL HL0 HW. split.
  - destruct (Hlin L W 1 HL HL0 HW) as (q & Hq & Eq).
    unfold one, zero, getWidthWithMargins in *. rewrite Hq. simpl.
    rewrite Eq. field. exact HL0.
  - destruct (Hlin L W (L + 1)%Q HL HL0 HW) as (q & Hq & Eq).
    unfold one, zero, getWidthWithMargins in *. rewrite Hq. simpl.
    rewrite Eq. field. exact HL0.
Qed.

(** Length 1000, width 520, margins 10 and 10: the scale maps [[1, 1001]]
    onto [[0, 500]], and position 251 to pixel 125. *)
Lemma updateScaleDomain_builds_linear_map_witness :
  let st := constructor (Some (N 1000)) (N 520) None None (N 10) (N 10) in
  exists s,
    xScale (_updateScaleDomain st) = Some s
    /\ (exists q, apply s (N 251) = Fin q /\ q == 125)
    /\ apply s one =~ zero
    /\ apply s (N 1001) =~ N 500.
Proof.
  destruct (updateScaleDomain_builds_linear_map
              (constructor (Some (N 1000)) (N 520) None None (N 10) (N 10)))
    as (s & Hx & _ & _ & _ & _ & _ & Hlin & Hends).
  exists s. split; [exact Hx|]. split.
  - destruct (Hlin 1000 500 251) as (q & Hq & Eq);
      [reflexivity | lra | reflexivity |].
    exists q. split; [exact Hq|]. rewrite Eq. reflexivity.
  - destruct (Hends 1000 500) as (H1 & H2);
      [reflexivity | lra | reflexivity |].
    split; [exact H1 | exact H2].
Defined.

(** C8.  While no scale is installed, [getXFromSeqPosition] and
    [getSingleBaseWidth] both answer [-1]; this is the case of an element
    that was only constructed.  Once a scale [s] is installed, the first
    answers the left margin plus [s(position)] and the second
    [s(2) - s(1)]; this is the case after [connectedCallback]. *)
Theorem accessors_sentinel (st : State) (position : num) :
  (xScale st = None ->
     getXFromSeqPosition st position = minus_one
     /\ getSingleBaseWidth st = minus_one)
  /\ (forall s, xScale st = Some s ->
        getXFromSeqPosition st position = margin_left st + apply s position
        /\ getSingleBaseWidth st = apply s two - apply s one)
  /\ (forall len w ds de ml mr,
        getXFromSeqPosition (constructor len w ds de ml mr) position = minus_one
        /\ getSingleBaseWidth (constructor len w ds de ml mr) = minus_one)
  /\ (exists s, xScale (connectedCallback st) = Some s).
Proof.
  unfold getXFromSeqPosition, getSingleBaseWidth. repeat split.
  - rewrite H. reflexivity.
  - rewrite H. reflexivity.
  - rewrite H. reflexivity.
  - rewrite H. reflexivity.
  - eexists. reflexivity.
Qed.

(** Before and after [connectedCallback], at position 250 of a sequence of
    length 1000 drawn 500 pixels wide behind a left margin of 10. *)
Lemma accessors_sentinel_witness :
  let st := constructor (Some (N 1000)) (N 520) None None (N 10) (N 10) in
  (getXFromSeqPosition st (N 250) = minus_one
   /\ getSingleBaseWidth st = minus_one)
  /\ getXFromSeqPosition (connectedCallback st) (N 250) = Fin (269 # 2)
  /\ getSingleBaseWidth (connectedCallback st) = Fin (1 # 2).
Proof.
  destruct (accessors_sentinel
              (constructor (Some (N 1000)) (N 520) None None (N 10) (N 10))
              (N 250)) as (H1 & _).
  destruct (accessors_sentinel
              (connectedCallback
                 (constructor (Some (N 1000)) (N 520) None None (N 10) (N 10)))
              (N 250)) as (_ & H2 & _).
  split; [apply H1; reflexivity|].
  destruct (H2 (mkScale (N 1, N 1001) (N 0, N 500))) as (H3 & H4);
    [reflexivity|].
  split.
  - rewrite H3. vm_compute. reflexivity.
  - rewrite H4. vm_compute. reflexivity.
Defined.

(* ------------------------------------------------------------------ *)
(** ** The [svg] setter *)

(** C10.  Assigning no surface, or assigning any surface while no zoom
    behaviour exists, returns the state as it was: nothing is stored, bound
    or scheduled.  With a zoom behaviour in place, assigning a surface stores
    it with the gesture listeners bound (its node keeps its transform, or
    gets the identity), and requests a re-application: the pending flag is
    set afterwards, and a frame callback is registered unless one was
    already waiting.  Nothing else changes. *)
Theorem svg_setter_guarded (st : State) :
  set_svg None st = st
  /\ (forall v, _zoom st = None -> set_svg v st = st)
  /\ (forall sv z, _zoom st = Some z ->
        let st' := set_svg (Some sv) st in
        svg st' = Some (mkSurface true
                          (Some (match node_zoom sv with
                                 | Some t => t
                                 | None => zoomIdentity
                                 end)))
        /\ aboutToApply st' = true
        /\ (aboutToApply st = false ->
              frames st' = S (frames st)
              /\ effects st' = effects st ++ [FrameRequested])
        /\ (aboutToApply st = true ->
              frames st' = frames st /\ effects st' = effects st)
        /\ _xScale st' = _xScale st
        /\ _originXScale st' = _originXScale st
        /\ _zoom st' = _zoom st
        /\ dontDispatch st' = dontDispatch st).
Proof.
  split; [reflexivity|]. split.
  - intros v H. unfold set_svg. rewrite H. destruct v; reflexivity.
  - intros sv z H st'. subst st'. unfold set_svg. rewrite H.
    unfold applyZoomTranslation. simpl.
    destruct (aboutToApply st) eqn:Ha; simpl; rewrite ?Ha;
      repeat split; try reflexivity; try discriminate; auto.
Qed.

(** A fresh surface given to a connected element, and to one that is not. *)
Lemma svg_setter_guarded_witness :
  let st0 := constructor (Some (N 1000)) (N 500) None None zero zero in
  let st := connectedCallback st0 in
  set_svg (Some (mkSurface false None)) st0 = st0
  /\ svg (set_svg (Some (mkSurface false None)) st)
     = Some (mkSurface true (Some zoomIdentity))
  /\ aboutToApply (set_svg (Some (mkSurface false None)) st) = true
  /\ frames (set_svg (Some (mkSurface false None)) st) = 1%nat.
Proof.
  destruct (svg_setter_guarded
              (constructor (Some (N 1000)) (N 500) None None zero zero))
    as (_ & H0 & _).
  destruct (svg_setter_guarded
              (connectedCallback
                 (constructor (Some (N 1000)) (N 500) None None zero zero)))
    as (_ & _ & H1).
  split; [apply H0; reflexivity|].
  destruct (H1 (mkSurface false None)
              (mkZoom (one, PInf) ((zero, zero), (N 500 - zero - zero, zero))
                 ((zero, zero), (N 500 - zero - zero, zero))))
    as (Hs & Ha & Hf & _); [reflexivity|].
  split; [exact Hs|]. split; [exact Ha|].
  destruct Hf as (Hf & _); [reflexivity|]. exact Hf.
Defined.

(* ------------------------------------------------------------------ *)
(** ** Structural attribute changes *)

Lemma option_string_eqb_neq (a b : option string) :
  a <> b -> option_string_eqb a b = false.
Proof.
  intros H. destruct a as [s|], b as [t|]; simpl; try reflexivity.
  - apply String.eqb_neq. intros E. apply H. rewrite E. reflexivity.
  - exfalso. apply H. reflexivity.
Qed.

Lemma triggers_refresh (name : string) :
  In name ATTRIBUTES_THAT_TRIGGER_REFRESH ->
  existsb (String.eqb name) ATTRIBUTES_THAT_TRIGGER_REFRESH = true.
Proof.
  intros H. apply existsb_exists. exists name. split; [exact H|].
  apply String.eqb_refl.
Qed.

(** C6, amended.  Once the zoom behaviour exists, a change of [length],
    [width] or [height] to a new value first rebuilds the scale from the new
    properties, then stores that very scale as the origin, and only then
    requests the re-application, which is deferred to the animation frame:
    no transform is touched inside the callback, and the frame applies the
    visible range against the new origin.  [connectedCallback] follows the
    same order: rebuild, then origin, then the zoom behaviour. *)
Theorem structural_change_ordering
    (super : string -> option string -> option string -> State -> State)
    (name : string) (oldValue newValue : option string) (st : State)
    (z : ZoomBehavior) :
  let st1 := super name oldValue newValue st in
  let fresh := mkScale (one, or0 (length st1) + one)
                 (zero, getWidthWithMargins st1) in
  let st' := attributeChangedCallback super name oldValue newValue st in
  zoom st1 = Some z ->
  In name ATTRIBUTES_THAT_TRIGGER_REFRESH ->
  oldValue <> null_as_absent newValue ->
  xScale st' = Some fresh
  /\ _originXScale st' = Some fresh
  /\ effects st'
     = effects st1 ++ [Rebuilt; OriginRefreshed]
         ++ (if aboutToApply st1 then [] else [FrameRequested])
  /\ svg st' = svg st1
  /\ aboutToApply st' = true
  /\ (forall sv, svg st1 = Some sv -> scheduler_ok st1 ->
        effects (run_frame st')
        = effects st'
            ++ [ApplyEntered; ZoomEvent (programmatic_transform st1 fresh);
                Rendered])
  /\ (forall st0,
        effects (connectedCallback st0)
        = effects st0 ++ [Rebuilt; OriginRefreshed; SuperConnected]
        /\ xScale (connectedCallback st0) = _originXScale (connectedCallback st0)
        /\ xScale (connectedCallback st0) = xScale (_updateScaleDomain st0)).
Proof.
  intros st1 fresh st' Hz Hname Hnew.
  assert (E : st' = applyZoomTranslation
                      (emit OriginRefreshed
                         (set_originXScale (Some fresh) (_updateScaleDomain st1)))).
  { subst st'. unfold attributeChangedCallback. fold st1. rewrite Hz.
    rewrite option_string_eqb_neq by exact Hnew. simpl negb. cbv iota.
    rewrite triggers_refresh by exact Hname. reflexivity. }
  assert (Hpre : xScale st' = Some fresh /\ _originXScale st' = Some fresh
                 /\ effects st'
                    = effects st1 ++ [Rebuilt; OriginRefreshed]
                        ++ (if aboutToApply st1 then [] else [FrameRequested])
                 /\ svg st' = svg st1 /\ aboutToApply st' = true
                 /\ frames st' = (if aboutToApply st1 then frames st1
                                  else S (frames st1))
                 /\ zoom st' = Some z
                 /\ length st' = length st1
                 /\ display_start st' = display_start st1
                 /\ display_end st' = display_end st1).
  { rewrite E. unfold applyZoomTranslation. simpl.
    destruct (aboutToApply st1) eqn:Ha; simpl; rewrite <- ?app_assoc; simpl;
      repeat split; auto. }
  destruct Hpre as (Hx & Ho & He & Hs & Ha & Hf & Hz' & Hl & Hds & Hde).
  repeat split; try assumption.
  - intros sv Hsv Hok. unfold run_frame.
    assert (F1 : frames st' = 1%nat).
    { rewrite Hf. red in Hok. destruct (aboutToApply st1); lia. }
    rewrite F1. simpl. unfold frame_callback.
    rewrite _applyZoomTranslation_effects. f_equal.
    unfold apply_effects, svg, zoom in *. simpl.
    rewrite Hs, Hsv, Ho, Hz'. unfold programmatic_transform.
    rewrite Hl, Hds, Hde. reflexivity.
  - unfold connectedCallback. simpl. rewrite <- !app_assoc. reflexivity.
Qed.

(** A length change from 1000 to 2000 on a connected element that holds a
    surface. *)
Lemma structural_change_ordering_witness :
  let super := reflect_length (Some (N 2000)) in
  let st := run_frame
              (connected (Some (N 1000)) (N 500) (Some (N 1)) (Some (N 1000))
                 zero zero) in
  let st1 := super "length"%string (Some "1000"%string) (Some "2000"%string) st in
  let fresh := mkScale (one, or0 (length st1) + one)
                 (zero, getWidthWithMargins st1) in
  let st' := attributeChangedCallback super "length"
               (Some "1000"%string) (Some "2000"%string) st in
  xScale st' = Some fresh
  /\ _originXScale st' = Some fresh
  /\ effects st'
     = effects st1 ++ [Rebuilt; OriginRefreshed]
         ++ (if aboutToApply st1 then [] else [FrameRequested])
  /\ svg st' = svg st1
  /\ aboutToApply st' = true
  /\ (forall sv, svg st1 = Some sv -> scheduler_ok st1 ->
        effects (run_frame st')
        = effects st'
            ++ [ApplyEntered; ZoomEvent (programmatic_transform st1 fresh);
                Rendered])
  /\ (forall st0,
        effects (connectedCallback st0)
        = effects st0 ++ [Rebuilt; OriginRefreshed; SuperConnected]
        /\ xScale (connectedCallback st0) = _originXScale (connectedCallback st0)
        /\ xScale (connectedCallback st0) = xScale (_updateScaleDomain st0)).
Proof.
  apply (structural_change_ordering (reflect_length (Some (N 2000)))
           "length" (Some "1000"%string) (Some "2000"%string)
           (run_frame
              (connected (Some (N 1000)) (N 500) (Some (N 1)) (Some (N 1000))
                 zero zero))
           (mkZoom (one, PInf) ((zero, zero), (N 500, zero))
              ((zero, zero), (N 500, zero)))).
  - reflexivity.
  - simpl. auto.
  - discriminate.
Defined.

(** C6 as stated fails before the element is connected: with no zoom
    behaviour yet, a change of the [length] attribute reaches the property
    but the scale is not rebuilt, the origin is not refreshed and nothing is
    scheduled. *)
Lemma structural_change_before_connect_ignored :
  let st := constructor (Some (N 10)) (N 100) None None zero zero in
  let st' := attributeChangedCallback (reflect_length (Some (N 100))) "length"
               (Some "10"%string) (Some "100"%string) st in
  length st' = Some (N 100)
  /\ xScale st' = None
  /\ _originXScale st' = None
  /\ effects st' = []
  /\ frames st' = 0%nat.
Proof. by_evaluation. Qed.

(* ------------------------------------------------------------------ *)
(** ** The programmatic transform *)

Lemma zoomed_props (t : Transform) (st : State) :
  length (zoomed t st) = length st
  /\ display_start (zoomed t st) = display_start st
  /\ display_end (zoomed t st) = display_end st.
Proof.
  unfold zoomed, xScale. simpl.
  destruct (_originXScale st) as [o|]; simpl.
  - destruct (domain (rescaleX t o)); simpl.
    destruct (dontDispatch st); simpl; repeat split; reflexivity.
  - destruct (_xScale st) as [s|]; simpl.
    + destruct (domain s); destruct (dontDispatch st); simpl;
        repeat split; reflexivity.
    + destruct (dontDispatch st); simpl; repeat split; reflexivity.
Qed.

(** The state a programmatic application leaves behind, when a surface, an
    origin scale and the zoom behaviour are all there. *)
Lemma _applyZoomTranslation_result (st : State) (sv : Surface)
    (o : ScaleLinear) (z : ZoomBehavior) :
  svg st = Some sv -> _originXScale st = Some o -> zoom st = Some z ->
  current_transform (_applyZoomTranslation st) = Some (programmatic_transform st o)
  /\ xScale (_applyZoomTranslation st) = Some (rescaleX (programmatic_transform st o) o)
  /\ length (_applyZoomTranslation st) = length st.
Proof.
  unfold svg, zoom. intros Hsv Ho Hz.
  unfold _applyZoomTranslation, svg, zoom, current_transform, xScale, svg.
  simpl. rewrite Hsv, Ho. simpl. rewrite Hz.
  unfold call_zoom_transform, programmatic_transform.
  match goal with |- context [zoomed ?t ?s] =>
    destruct (zoomed_scheduler t s) as (_ & _ & H1 & _);
    destruct (zoomed_props t s) as (H2 & _);
    pose proof (zoomed_xScale t s o Ho) as H3
  end.
  simpl. rewrite H1, H2. unfold xScale in H3. rewrite H3.
  repeat split; reflexivity.
Qed.

Lemma num_eq_refl (a : num) : a =~ a.
Proof. destruct a; simpl; auto. reflexivity. Qed.

(** The scale of [zoomIdentity.scale(k).translate(dx, 0)] is [k]. *)
Lemma identity_scaled_k (kk dx : num) :
  k (translate (scale zoomIdentity kk) dx zero) =~ kk.
Proof.
  assert (H : k (scale zoomIdentity kk) =~ kk).
  { unfold scale. destruct (is_one kk) eqn:E.
    - destruct kk; simpl in *; try discriminate.
      apply Qeq_bool_iff in E. symmetry. exact E.
    - destruct kk as [| | |q]; try exact I.
      change (Qred (1 * q) == q). rewrite Qred_correct. ring. }
  unfold translate. destruct (is_zero dx && is_zero zero); exact H.
Qed.

(** C3.  When a visible range [{s, e}] is applied (a surface, the origin
    scale and the zoom behaviour are in place, and length, start and end are
    numbers), the transform handed to the zoom behaviour and kept on the
    surface is [zoomIdentity.scale(k).translate(translateX, 0)] with
    [k = max(1, L / (1 + e - s))] and [translateX = -originScale(s)]; its
    scale is [k], and the live scale becomes the origin scale rescaled by
    it. *)
Theorem programmatic_transform_formula (st : State) (sv : Surface)
    (origin : ScaleLinear) (z : ZoomBehavior) (L s e : num) :
  svg st = Some sv ->
  _originXScale st = Some origin ->
  zoom st = Some z ->
  length st = Some L ->
  display_start st = Some s ->
  display_end st = Some e ->
  isNaN L = false -> isNaN s = false -> isNaN e = false ->
  exists L' s' e',
    L' =~ L /\ s' =~ s /\ e' =~ e
    /\ let kk := Num.max one (L' / (one + e' - s')) in
       let translateX := - apply origin s' in
       let t := translate (scale zoomIdentity kk) translateX zero in
       current_transform (_applyZoomTranslation st) = Some t
       /\ effects (_applyZoomTranslation st)
          = effects st ++ [ApplyEntered; ZoomEvent t; Rendered]
       /\ xScale (_applyZoomTranslation st) = Some (rescaleX t origin)
       /\ k t =~ kk
       /\ scale_factor st = kk
       /\ (forall kq dq, kk = Fin kq -> translateX = Fin dq ->
             exists x1, x t = Fin x1 /\ x1 == kq * dq).
Proof.
  intros Hsv Ho Hz HL Hs He NL Ns Ne.
  exists (or0 (Some L)), (or0 (Some s)), (or0 (Some e)).
  split; [apply or0_num, NL|]. split; [apply or0_num, Ns|].
  split; [apply or0_num, Ne|].
  destruct (_applyZoomTranslation_result st sv origin z Hsv Ho Hz)
    as (H1 & H2 & _).
  unfold programmatic_transform in *. rewrite HL, Hs, He in *.
  split; [exact H1|]. split.
  - rewrite _applyZoomTranslation_effects. unfold apply_effects.
    rewrite Hsv, Ho, Hz, HL, Hs, He. reflexivity.
  - split; [exact H2|]. split; [apply identity_scaled_k|].
    split; [unfold scale_factor; rewrite HL, Hs, He; reflexivity|].
    intros kq dq -> ->.
    destruct (identity_scaled_translated kq dq) as (k1 & x1 & _ & Hx & _ & Ex).
    exists x1. split; assumption.
Qed.

(** The scenario of the specification: length 1000, width 500, no margins,
    range 250..260.  The scale factor is 1000/11 and position 250 lands on
    pixel 0. *)
Lemma programmatic_transform_formula_witness :
  let st := run_frame
              (connected (Some (N 1000)) (N 500) (Some (N 250)) (Some (N 260))
                 zero zero) in
  let origin := mkScale (N 1, N 1001) (N 0, N 500) in
  (exists L' s' e',
    L' =~ N 1000 /\ s' =~ N 250 /\ e' =~ N 260
    /\ let kk := Num.max one (L' / (one + e' - s')) in
       let translateX := - apply origin s' in
       let t := translate (scale zoomIdentity kk) translateX zero in
       current_transform (_applyZoomTranslation st) = Some t
       /\ effects (_applyZoomTranslation st)
          = effects st ++ [ApplyEntered; ZoomEvent t; Rendered]
       /\ xScale (_applyZoomTranslation st) = Some (rescaleX t origin)
       /\ k t =~ kk
       /\ scale_factor st = kk
       /\ (forall kq dq, kk = Fin kq -> translateX = Fin dq ->
             exists x1, x t = Fin x1 /\ x1 == kq * dq))
  /\ scale_factor st = Fin (1000 # 11)
  /\ current_transform (_applyZoomTranslation st)
     = Some (mkTransform (Fin (1000 # 11)) (Fin (-124500 # 11)) (Fin 0))
  /\ getXFromSeqPosition (_applyZoomTranslation st) (N 250) = Fin 0.
Proof.
  split; [|by_evaluation].
  apply (programmatic_transform_formula
           (run_frame
              (connected (Some (N 1000)) (N 500) (Some (N 250)) (Some (N 260))
                 zero zero))
           (mkSurface true
              (Some (mkTransform (Fin (1000 # 11)) (Fin (-124500 # 11)) (Fin 0))))
           (mkScale (N 1, N 1001) (N 0, N 500))
           (mkZoom (one, PInf) ((zero, zero), (N 500, zero))
              ((zero, zero), (N 500, zero)))
           (N 1000) (N 250) (N 260)); reflexivity.
Defined.

(* ------------------------------------------------------------------ *)
(** ** Order facts on numbers *)

Lemma or0_not_NaN (v : option num) : isNaN (or0 v) = false.
Proof.
  destruct v as [[| | |q]|]; try reflexivity.
  unfold or0. simpl. destruct (Qeq_bool q 0); reflexivity.
Qed.

Lemma max_ge_one (a : num) :
  isNaN (Num.max one a) = false -> (one <=? Num.max one a) = true.
Proof.
  destruct a as [| | |q]; num_unfold; intros H; try q_close.
  q_test; num_step; q_close.
Qed.

Lemma min_le_left (a b : num) :
  isNaN (Num.min a b) = false -> (Num.min a b <=? a) = true.
Proof.
  destruct a as [| | |p], b as [| | |q]; num_unfold; intros H; try q_close.
  q_test; num_step; q_close.
Qed.

(** The floor of two positions: when the domain start is a number between 1
    and [len - 1], the range put in the event spans at least one position. *)
Lemma change_detail_span (len : option num) (q : Q) (end_ : num) :
  isNaN end_ = false ->
  (one <=? Fin q) = true ->
  (Fin q + one <=? or0 len) = true ->
  (one <=? snd (change_detail len (Fin q) end_)
           - fst (change_detail len (Fin q) end_)) = true.
Proof.
  intros He H1 HL. pose proof (or0_not_NaN len) as Hn.
  destruct (or0 len) as [| | |l] eqn:El; num_unfold; num_step;
    rewrite ?El in *; try discriminate;
    destruct end_ as [| | |e]; try discriminate; num_step;
    rewrite ?H1; num_step;
    repeat (q_test; num_step); q_close.
Qed.

Lemma clampScale_ge_one (st : State) (z : ZoomBehavior) (k' : num) :
  zoom (_initZoom st) = Some z ->
  isNaN k' = false ->
  (one <=? clampScale z k') = true.
Proof.
  unfold zoom, _initZoom. simpl. intros Hz. injection Hz as <-.
  unfold clampScale. simpl scaleExtent. cbn [fst snd].
  destruct k' as [| | |q]; num_unfold; intros H; try q_close.
  num_step. q_test; num_step; q_close.
Qed.

(** The scale factor is a number as soon as length, start and end are finite
    and the ratio is not [0 / 0]. *)
Lemma scale_factor_finite (st : State) (L s e : Q) :
  or0 (length st) = Fin L ->
  or0 (display_start st) = Fin s ->
  or0 (display_end st) = Fin e ->
  ~ (L == 0 /\ 1 + e - s == 0) ->
  isNaN (scale_factor st) = false.
Proof.
  intros HL Hs He Hne. unfold scale_factor. rewrite HL, Hs, He.
  num_unfold. num_step.
  destruct (Qeq_bool (Qred (Qred (1 + e) + - s)) 0) eqn:E0.
  - q_facts. unfold inf_of, Qsgn. destruct (L ?= 0) eqn:C; try reflexivity.
    apply Qeq_alt in C. exfalso. apply Hne. split; [exact C | lra].
  - q_test; reflexivity.
Qed.

(** What a transform change adds to the notifications. *)
Lemma zoomed_changes (t : Transform) (st : State) :
  changes (effects (zoomed t st))
  = changes (effects st)
      ++ (if dontDispatch st then []
          else match xScale (zoomed t st) with
               | Some s => [change_detail (length st)
                              (fst (domain s)) (snd (domain s))]
               | None => []
               end).
Proof.
  unfold zoomed, xScale. simpl.
  destruct (_originXScale st) as [o|] eqn:Ho; simpl.
  - destruct (domain (rescaleX t o)) as [a b] eqn:Ed; simpl.
    destruct (dontDispatch st) eqn:Hd; simpl; rewrite ?Hd.
    + rewrite changes_app. reflexivity.
    + simpl. rewrite ?Ed. unfold change_detail. simpl.
      rewrite !changes_app. simpl. rewrite <- app_assoc. reflexivity.
  - destruct (_xScale st) as [s|] eqn:Hx; simpl.
    + destruct (domain s) as [a b] eqn:Ed.
      destruct (dontDispatch st) eqn:Hd; simpl; rewrite ?Hd.
      * rewrite changes_app. reflexivity.
      * simpl. rewrite ?Hx, ?Ed. unfold change_detail. simpl.
        rewrite !changes_app. simpl. rewrite <- app_assoc. reflexivity.
    + destruct (dontDispatch st) eqn:Hd; simpl; rewrite ?Hd, ?Hx;
        rewrite changes_app; reflexivity.
Qed.

(* ------------------------------------------------------------------ *)
(** ** Invariants of the emitted range *)

(** What does hold of an emitted range.  A transform change raises at most
    one "change" notification.  In a notification [(ds, de)], the
    display-start is at least 1 and the display-end at most the length (read
    as 0 when missing) whenever they are numbers; and when the rescaled
    domain starts at a number [s0] with [1 <= s0] and [s0 + 1 <= length],
    and ends at a number, the span [de - ds] is at least 1.  The scale
    factor computed by the programmatic application is at least 1 whenever
    it is a number, and the scale a gesture asks for is clamped to at least
    1 by the scale extent set in [_initZoom]. *)
Theorem change_event_invariants (st : State) (t : Transform) :
  (changes (effects (zoomed t st)) = changes (effects st)
   \/ exists ds de,
        changes (effects (zoomed t st)) = changes (effects st) ++ [(ds, de)])
  /\ (forall ds de,
        changes (effects (zoomed t st)) = changes (effects st) ++ [(ds, de)] ->
        (isNaN ds = false -> (one <=? ds) = true)
        /\ (isNaN de = false -> (de <=? or0 (length st)) = true)
        /\ (forall s0 e0 r,
              xScale (zoomed t st) = Some (mkScale (Fin s0, e0) r) ->
              isNaN e0 = false ->
              (one <=? Fin s0) = true ->
              (Fin s0 + one <=? or0 (length st)) = true ->
              (one <=? de - ds) = true))
  /\ (isNaN (scale_factor st) = false -> (one <=? scale_factor st) = true)
  /\ (forall L s e,
        or0 (length st) = Fin L ->
        or0 (display_start st) = Fin s ->
        or0 (display_end st) = Fin e ->
        ~ (L == 0 /\ 1 + e - s == 0) ->
        (one <=? scale_factor st) = true)
  /\ (forall z k',
        zoom (_initZoom st) = Some z -> isNaN k' = false ->
        (one <=? clampScale z k') = true).
Proof.
  pose proof (zoomed_changes t st) as Hc.
  split; [|split; [|split; [|split]]].
  - destruct (dontDispatch st).
    + left. rewrite Hc. apply app_nil_r.
    + destruct (xScale (zoomed t st)) as [s|].
      * right. eexists. eexists. rewrite Hc. unfold change_detail. reflexivity.
      * left. rewrite Hc. apply app_nil_r.
  - intros ds de E. rewrite Hc in E. apply app_inv_head in E.
    destruct (dontDispatch st); [discriminate|].
    destruct (xScale (zoomed t st)) as [s|]; [|discriminate].
    injection E as E1 E2. subst ds de.
    split; [apply max_ge_one|]. split; [apply min_le_left|].
    intros s0 e0 r Hs He H1 HL. injection Hs as ->. simpl fst. simpl snd.
    pose proof (change_detail_span (length st) s0 e0 He H1 HL) as H.
    exact H.
  - apply max_ge_one.
  - intros L s e HL Hs He Hne. apply max_ge_one.
    apply (scale_factor_finite st L s e HL Hs He Hne).
  - intros z k'. apply clampScale_ge_one.
Qed.

(** A drag on a connected element of length 1000: the notification carries
    the range 1..1000, within the bounds. *)
Lemma change_event_invariants_witness :
  let st := run_frame
              (connected (Some (N 1000)) (N 500) (Some (N 250)) (Some (N 260))
                 zero zero) in
  changes (effects (zoomed zoomIdentity st)) = changes (effects st) ++ [(N 1, N 1000)]
  /\ (one <=? N 1) = true
  /\ (N 1000 <=? or0 (length st)) = true
  /\ (one <=? N 1000 - N 1) = true
  /\ (one <=? scale_factor st) = true.
Proof.
  pose proof (change_event_invariants
                (run_frame
                   (connected (Some (N 1000)) (N 500) (Some (N 250))
                      (Some (N 260)) zero zero))
                zoomIdentity) as (_ & H & Hk & _).
  assert (E : changes (effects (zoomed zoomIdentity
                (run_frame
                   (connected (Some (N 1000)) (N 500) (Some (N 250))
                      (Some (N 260)) zero zero))))
              = changes (effects
                (run_frame
                   (connected (Some (N 1000)) (N 500) (Some (N 250))
                      (Some (N 260)) zero zero))) ++ [(N 1, N 1000)])
    by (vm_compute; reflexivity).
  destruct (H (N 1) (N 1000) E) as (H1 & H2 & H3).
  split; [exact E|]. split; [apply H1; reflexivity|].
  split; [apply H2; reflexivity|].
  split.
  - apply (H3 1 (N 1001) (N 0, N 500)); reflexivity.
  - apply Hk. reflexivity.
Defined.

(** Past the last full position the floor is lost: when the rescaled domain
    starts at a number [s0 >= 1] with [s0 + 1] above the length, the clamp
    to the length brings the end below [s0 + 1], and the span is below 1. *)
Lemma change_detail_past_length (len : option num) (s0 L : Q) (e0 : num) :
  isNaN e0 = false ->
  or0 len = Fin L ->
  (1 <= s0)%Q -> (L < s0 + 1)%Q ->
  (one <=? snd (change_detail len (Fin s0) e0)
           - fst (change_detail len (Fin s0) e0)) = false.
Proof.
  intros He HL H1 H2. unfold change_detail. rewrite HL. cbn [fst snd].
  destruct e0 as [| | |e]; try discriminate;
    num_unfold; num_step; repeat (q_test; num_step); q_facts;
    try reflexivity;
    try (apply Qle_bool_false; rewrite ?Qred_correct; lra);
    exfalso; lra.
Qed.

(** C4.  The span invariant of the emitted range, [display-end -
    display-start >= 1], is what the comment in [zoomed] promises ("never
    zooms in deeper than showing 2 bases"), and the code breaks it.  On a
    sequence of length 10 drawn 100 pixels wide, the gesture transforms
    [(k = 10, x = -900)] and [(k = 20, x = -1900)] are both within the
    extents set by [_initZoom]; they show the domains [[10, 11]] and
    [[10.5, 11]], and [zoomed] notifies the ranges 10..10 and 10.5..10, of
    span 0 and -0.5: the floor [start + 1] is applied first and the clamp to
    the length undoes it.  A range that meets all the bounds exists at this
    length (9..10). *)
Theorem span_floor_undone_by_length_clamp :
  let st := run_frame
              (connected (Some (N 10)) (N 100) (Some (N 1)) (Some (N 10))
                 zero zero) in
  let t1 := mkTransform (N 10) (N (-900)) zero in
  let t2 := mkTransform (N 20) (N (-1900)) zero in
  option_map (fun z => admissible z t1) (zoom st) = Some true
  /\ option_map (fun z => admissible z t2) (zoom st) = Some true
  /\ xScale (gesture t1 st) = Some (mkScale (Fin 10, Fin 11) (Fin 0, Fin 100))
  /\ effects (gesture t1 st)
     = effects st ++ [ZoomEvent t1; Change (Fin 10) (Fin 10)]
  /\ (one <=? Fin 10 - Fin 10) = false
  /\ xScale (gesture t2 st)
     = Some (mkScale (Fin (21 # 2), Fin 11) (Fin 0, Fin 100))
  /\ effects (gesture t2 st)
     = effects st ++ [ZoomEvent t2; Change (Fin (21 # 2)) (Fin 10)]
  /\ (one <=? Fin 10 - Fin (21 # 2)) = false
  /\ ((one <=? Fin 9) = true
      /\ (Fin 10 <=? or0 (length st)) = true
      /\ (one <=? Fin 10 - Fin 9) = true).
Proof. by_evaluation. Qed.

(* ------------------------------------------------------------------ *)
(** ** Round trip of a programmatic range *)

(** The scale factor of a range [s .. e] inside [1 .. L]. *)
Lemma scale_factor_in_range (L s e : Q) :
  (1 <= s)%Q -> (s + 1 <= e)%Q -> (e <= L)%Q ->
  exists kq, Num.max one (Fin L / (one + Fin e - Fin s)) = Fin kq
             /\ kq == L / (1 + e - s).
Proof.
  intros H1 H2 H3. unfold one. rewrite add_Fin, sub_Fin.
  assert (D : ~ Qred (Qred (1 + e) - s) == 0)
    by (rewrite !Qred_correct; lra).
  rewrite div_Fin by exact D. eexists. split.
  - apply max_Fin_r. rewrite !Qred_correct.
    apply Qle_shift_div_l; lra.
  - rewrite !Qred_correct. reflexivity.
Qed.

(** The domain of the live scale after the range [s .. e] was applied
    against the origin [[1, L + 1] -> [0, W]]: it is [[s, e + 1]]. *)
Lemma roundtrip_domain (L W s e : Q) :
  ~ W == 0 -> (1 <= s)%Q -> (s + 1 <= e)%Q -> (e <= L)%Q ->
  let o := mkScale (Fin 1, Fin (Qred (L + 1))) (Fin 0, Fin W) in
  let t := translate
             (scale zoomIdentity (Num.max one (Fin L / (one + Fin e - Fin s))))
             (- apply o (Fin s)) zero in
  exists q1 q2,
    domain (rescaleX t o) = (Fin q1, Fin q2) /\ q1 == s /\ q2 == e + 1.
Proof.
  intros HW H1 H2 H3 o t.
  destruct (scale_factor_in_range L s e H1 H2 H3) as (kq & Hk & Ek).
  assert (HL : ~ Qred (L + 1) == 1) by (rewrite Qred_correct; lra).
  destruct (bimap_Fin 1 (Qred (L + 1)) 0 W s) as (aq & Ha & Ea).
  { intros E. apply HL. symmetry. exact E. }
  assert (Hap : apply o (Fin s) = Fin aq) by exact Ha.
  subst t. rewrite Hk, Hap. change (- Fin aq) with (Fin (- aq)).
  destruct (identity_scaled_translated kq (- aq)) as (k1 & x1 & Tk & Tx & Ek1 & Ex1).
  set (t := translate (scale zoomIdentity (Fin kq)) (Fin (- aq)) zero) in *.
  assert (Kpos : (1 <= kq)%Q).
  { rewrite Ek. apply Qle_shift_div_l; lra. }
  assert (K1 : ~ k1 == 0) by (rewrite Ek1; lra).
  unfold rescaleX, o, invert, with_domain, copy. cbn [range domain].
  unfold invertX. rewrite Tk, Tx, !sub_Fin, !div_Fin by exact K1.
  destruct (bimap_Fin 0 W 1 (Qred (L + 1)) (Qred (Qred (0 - x1) / k1)))
    as (q1 & Hq1 & Eq1); [intros E; apply HW; symmetry; exact E|].
  destruct (bimap_Fin 0 W 1 (Qred (L + 1)) (Qred (Qred (W - x1) / k1)))
    as (q2 & Hq2 & Eq2); [intros E; apply HW; symmetry; exact E|].
  exists q1, q2. rewrite Hq1, Hq2. split; [reflexivity|].
  rewrite !Qred_correct in *.
  assert (Lpos : ~ L == 0) by lra.
  assert (Dpos : ~ 1 + e - s == 0) by lra.
  assert (Kq : ~ kq == 0) by lra.
  split.
  - rewrite Eq1, Ex1, Ek1, Ea. field. split; [|split]; try assumption; lra.
  - rewrite Eq2, Ex1, Ek1, Ea, Ek. field.
    repeat split; try assumption; lra.
Qed.

(** Reading the range back from the domain [[s, e + 1]]. *)
Lemma change_detail_roundtrip (L q1 q2 s e : Q) :
  q1 == s -> q2 == e + 1 ->
  (1 <= s)%Q -> (s + 1 <= e)%Q -> (e <= L)%Q ->
  exists a b,
    change_detail (Some (Fin L)) (Fin q1) (Fin q2) = (Fin a, Fin b)
    /\ a == s /\ b == e.
Proof.
  intros E1 E2 H1 H2 H3.
  assert (HL : ~ L == 0) by lra.
  unfold change_detail. rewrite (or0_Fin L HL). unfold one.
  rewrite sub_Fin, add_Fin.
  rewrite (max_Fin_r 1 q1) by lra.
  destruct (Qle_bool (Qred (q2 - 1)) (Qred (q1 + 1))) eqn:T; q_facts.
  - rewrite (max_Fin_r (Qred (q2 - 1)) (Qred (q1 + 1)))
      by (rewrite !Qred_correct; exact T).
    destruct (min_Fin_r_le L (Qred (q1 + 1))) as (r & Hr & Er);
      [rewrite Qred_correct; lra|].
    rewrite Hr. exists q1, r. split; [reflexivity|].
    rewrite Qred_correct in Er. split; lra.
  - rewrite (max_Fin_l (Qred (q2 - 1)) (Qred (q1 + 1)))
      by (rewrite !Qred_correct; exact T).
    destruct (min_Fin_r_le L (Qred (q2 - 1))) as (r & Hr & Er);
      [rewrite Qred_correct; lra|].
    rewrite Hr. exists q1, r. split; [reflexivity|].
    rewrite Qred_correct in Er. split; lra.
Qed.

Lemma roundtrip_core (st : State) (sv : Surface) (z : ZoomBehavior)
    (L W s e : Q) :
  svg st = Some sv ->
  zoom st = Some z ->
  length st = Some (Fin L) ->
  display_start st = Some (Fin s) ->
  display_end st = Some (Fin e) ->
  getWidthWithMargins st = Fin W ->
  ~ W == 0 ->
  _originXScale st = xScale (_updateScaleDomain st) ->
  (1 <= s)%Q -> (s + 1 <= e)%Q -> (e <= L)%Q ->
  exists s' e',
    visibleRange (_applyZoomTranslation st) = Some (Fin s', Fin e')
    /\ s' == s /\ e' == e.
Proof.
  intros Hsv Hz HL Hs He HW W0 Ho H1 H2 H3.
  assert (L0 : ~ L == 0) by lra.
  assert (s0 : ~ s == 0) by lra.
  assert (e0 : ~ e == 0) by lra.
  unfold _updateScaleDomain, xScale in Ho. simpl in Ho.
  rewrite HL, HW, (or0_Fin L L0) in Ho. unfold one, zero in Ho.
  rewrite add_Fin in Ho.
  destruct (_applyZoomTranslation_result st sv _ z Hsv Ho Hz) as (_ & Hx & Hlen).
  unfold visibleRange. rewrite Hx, Hlen, HL.
  unfold programmatic_transform.
  rewrite HL, Hs, He, (or0_Fin L L0), (or0_Fin s s0), (or0_Fin e e0).
  destruct (roundtrip_domain L W s e W0 H1 H2 H3) as (q1 & q2 & Hd & E1 & E2).
  cbv zeta in Hd. rewrite Hd. cbn [fst snd].
  destruct (change_detail_roundtrip L q1 q2 s e E1 E2 H1 H2 H3)
    as (a & b & Hab & Ea & Eb).
  rewrite Hab. exists a, b. auto.
Qed.

(** C1, amended.  On an element with a surface and a zoom behaviour, whose
    origin scale is in step with its length [L] and its drawable width [W],
    with [W] non-zero: applying a range [s .. e] with [1 <= s],
    [s + 1 <= e] and [e <= L] and reading the visible range back gives
    exactly [s] and [e] (arithmetic is exact in this model).  The same holds
    when the application goes through the debounced request and the next
    animation frame. *)
Theorem programmatic_range_roundtrip (st : State) (sv : Surface)
    (z : ZoomBehavior) (L W s e : Q) :
  svg st = Some sv ->
  zoom st = Some z ->
  length st = Some (Fin L) ->
  display_start st = Some (Fin s) ->
  display_end st = Some (Fin e) ->
  getWidthWithMargins st = Fin W ->
  ~ W == 0 ->
  _originXScale st = xScale (_updateScaleDomain st) ->
  (1 <= s)%Q -> (s + 1 <= e)%Q -> (e <= L)%Q ->
  (exists s' e',
     visibleRange (_applyZoomTranslation st) = Some (s', e')
     /\ s' =~ Fin s /\ e' =~ Fin e)
  /\ (aboutToApply st = false -> frames st = 0%nat ->
      exists s' e',
        visibleRange (run_frame (applyZoomTranslation st)) = Some (s', e')
        /\ s' =~ Fin s /\ e' =~ Fin e).
Proof.
  intros Hsv Hz HL Hs He HW W0 Ho H1 H2 H3. split.
  - destruct (roundtrip_core st sv z L W s e Hsv Hz HL Hs He HW W0 Ho H1 H2 H3)
      as (s' & e' & Hv & Es & Ee).
    exists (Fin s'), (Fin e'). auto.
  - intros Ha Hf. unfold applyZoomTranslation, run_frame. rewrite Ha.
    simpl. rewrite Hf. simpl. unfold frame_callback.
    match goal with |- context [_applyZoomTranslation ?st2] =>
      destruct (roundtrip_core st2 sv z L W s e Hsv Hz HL Hs He HW W0 Ho H1 H2 H3)
        as (s' & e' & Hv & Es & Ee)
    end.
    exists (Fin s'), (Fin e'). auto.
Qed.

(** The range 250..260 of a sequence of length 1000 drawn 500 pixels wide
    comes back as 250..260. *)
Lemma programmatic_range_roundtrip_witness :
  let st := connected (Some (N 1000)) (N 500) (Some (N 250)) (Some (N 260))
              zero zero in
  ((exists s' e',
      visibleRange (_applyZoomTranslation st) = Some (s', e')
      /\ s' =~ N 250 /\ e' =~ N 260)
   /\ (aboutToApply st = false -> frames st = 0%nat ->
       exists s' e',
         visibleRange (run_frame (applyZoomTranslation st)) = Some (s', e')
         /\ s' =~ N 250 /\ e' =~ N 260))
  /\ visibleRange (_applyZoomTranslation st) = Some (N 250, N 260).
Proof.
  split; [|by_evaluation].
  apply (programmatic_range_roundtrip
           (connected (Some (N 1000)) (N 500) (Some (N 250)) (Some (N 260))
              zero zero)
           (mkSurface true (Some zoomIdentity))
           (mkZoom (one, PInf) ((zero, zero), (N 500, zero))
              ((zero, zero), (N 500, zero)))
           (inject_Z 1000) (inject_Z 500) (inject_Z 250) (inject_Z 260));
    try reflexivity; unfold inject_Z; lra.
Defined.

(** C1 as stated fails in two ways.  With a drawable width of zero (width 0,
    no margins), the range 1..10 of a sequence of length 10 comes back as
    6..7: the origin scale has a collapsed range and its inverse answers the
    middle of the domain.  And a range narrower than one position,
    1..1.5, comes back as 1..2: the end is floored at [start + 1]. *)
Lemma programmatic_range_roundtrip_fails :
  (let st := connected (Some (N 10)) (N 0) (Some (N 1)) (Some (N 10))
               zero zero in
   getWidthWithMargins st = Fin 0
   /\ visibleRange (_applyZoomTranslation st) = Some (Fin 6, Fin 7))
  /\ (let st := connected (Some (N 10)) (N 100) (Some (N 1)) (Some (Fin (3 # 2)))
                  zero zero in
      visibleRange (_applyZoomTranslation st) = Some (Fin 1, Fin 2)).
Proof. by_evaluation. Qed.

(* ------------------------------------------------------------------ *)
(** ** Malformed and degenerate input *)

Lemma _applyZoomTranslation_idle (st : State) :
  svg st = None \/ _originXScale st = None \/ zoom st = None ->
  _svg (_applyZoomTranslation st) = _svg st
  /\ _xScale (_applyZoomTranslation st) = _xScale st.
Proof.
  unfold _applyZoomTranslation, svg, zoom. simpl. intros H.
  destruct (_svg st) as [sv|] eqn:Hsv; [|split; simpl; auto].
  destruct (_originXScale st) as [o|] eqn:Ho; [|split; simpl; auto].
  destruct (_zoom st) as [z|] eqn:Hz; simpl; rewrite ?Hz.
  - destruct H as [H | [H | H]]; discriminate.
  - split; simpl; auto.
Qed.

(** The application reads the range only through [v || 0]. *)
Lemma apply_reads_range_through_or0 (st : State) (ds de ds' de' : option num) :
  or0 ds = or0 ds' -> or0 de = or0 de' ->
  effects (_applyZoomTranslation (with_range ds de st))
  = effects (_applyZoomTranslation (with_range ds' de' st))
  /\ current_transform (_applyZoomTranslation (with_range ds de st))
     = current_transform (_applyZoomTranslation (with_range ds' de' st))
  /\ xScale (_applyZoomTranslation (with_range ds de st))
     = xScale (_applyZoomTranslation (with_range ds' de' st)).
Proof.
  intros Es Ee. split.
  - rewrite !_applyZoomTranslation_effects. unfold apply_effects, svg, zoom.
    simpl. rewrite Es, Ee. reflexivity.
  - destruct (_svg st) as [sv|] eqn:Hsv.
    + destruct (_originXScale st) as [o|] eqn:Ho.
      * destruct (_zoom st) as [z|] eqn:Hz.
        -- destruct (_applyZoomTranslation_result (with_range ds de st) sv o z
                       Hsv Ho Hz) as (H1 & H2 & _).
           destruct (_applyZoomTranslation_result (with_range ds' de' st) sv o z
                       Hsv Ho Hz) as (H3 & H4 & _).
           rewrite H1, H2, H3, H4. unfold programmatic_transform. simpl.
           rewrite Es, Ee. split; reflexivity.
        -- destruct (_applyZoomTranslation_idle (with_range ds de st))
             as (H1 & H2); [right; right; exact Hz|].
           destruct (_applyZoomTranslation_idle (with_range ds' de' st))
             as (H3 & H4); [right; right; exact Hz|].
           unfold current_transform, svg, xScale.
           rewrite H1, H2, H3, H4. split; reflexivity.
      * destruct (_applyZoomTranslation_idle (with_range ds de st))
          as (H1 & H2); [right; left; exact Ho|].
        destruct (_applyZoomTranslation_idle (with_range ds' de' st))
          as (H3 & H4); [right; left; exact Ho|].
        unfold current_transform, svg, xScale.
        rewrite H1, H2, H3, H4. split; reflexivity.
    + destruct (_applyZoomTranslation_idle (with_range ds de st))
        as (H1 & H2); [left; exact Hsv|].
      destruct (_applyZoomTranslation_idle (with_range ds' de' st))
        as (H3 & H4); [left; exact Hsv|].
      unfold current_transform, svg, xScale.
      rewrite H1, H2, H3, H4. split; reflexivity.
Qed.

(** The scale of the transform a programmatic application builds is at
    least 1 whenever it is a number. *)
Lemma stored_scale_ge_one (r dx : num) :
  isNaN (k (translate (scale zoomIdentity (Num.max one r)) dx zero)) = false ->
  (one <=? k (translate (scale zoomIdentity (Num.max one r)) dx zero)) = true.
Proof.
  assert (E : k (translate (scale zoomIdentity (Num.max one r)) dx zero)
              = k (scale zoomIdentity (Num.max one r))).
  { unfold translate. destruct (is_zero dx && is_zero zero); reflexivity. }
  rewrite E. unfold scale.
  destruct (is_one (Num.max one r)); [intros _; vm_compute; reflexivity|].
  cbn [k zoomIdentity].
  destruct r as [| | |q]; num_unfold; num_step; try discriminate;
    try (intros _; vm_compute; reflexivity).
  q_test; num_step; intros _; q_close.
Qed.

(** C9, amended.  A missing or non-numeric display-start or display-end,
    either one or both, is not reported: the engine reads it as 0 and goes
    on exactly as for the number 0 in its place (same effects, same
    transform, same live scale).  Degenerate input is not rejected either:
    with a surface, an origin scale and the zoom behaviour in place the
    application always runs to its end, and the scale of the transform it
    stores is at least 1 whenever it is a number.  The one throw in the
    sources is in the links' [contacts] setter, and it concerns contact data
    that is neither a string nor an array. *)
Theorem malformed_range_read_as_zero (st : State) (ds de ds' de' : option num) :
  (ds' = ds \/ ((ds = None \/ ds = Some NaN) /\ ds' = Some zero)) ->
  (de' = de \/ ((de = None \/ de = Some NaN) /\ de' = Some zero)) ->
  (effects (_applyZoomTranslation (with_range ds de st))
   = effects (_applyZoomTranslation (with_range ds' de' st))
   /\ current_transform (_applyZoomTranslation (with_range ds de st))
      = current_transform (_applyZoomTranslation (with_range ds' de' st))
   /\ xScale (_applyZoomTranslation (with_range ds de st))
      = xScale (_applyZoomTranslation (with_range ds' de' st)))
  /\ (forall sv o z,
        svg st = Some sv -> _originXScale st = Some o -> zoom st = Some z ->
        exists t,
          current_transform (_applyZoomTranslation (with_range ds de st)) = Some t
          /\ effects (_applyZoomTranslation (with_range ds de st))
             = effects st ++ [ApplyEntered; ZoomEvent t; Rendered]
          /\ (isNaN (k t) = false -> (one <=? k t) = true))
  /\ (forall (ContactObject : Type) parseToRowData filterContacts
             (getContactsObject : list (list num) -> ContactObject)
             data lst,
        (exists m,
           Links.set_contacts ContactObject parseToRowData filterContacts
             getContactsObject data lst = Links.Throw m)
        <-> data = Links.DataOther).
Proof.
  intros Hs He. split; [|split].
  - apply apply_reads_range_through_or0.
    + destruct Hs as [-> | ([-> | ->] & ->)]; reflexivity.
    + destruct He as [-> | ([-> | ->] & ->)]; reflexivity.
  - intros sv o z Hsv Ho Hz.
    destruct (_applyZoomTranslation_result (with_range ds de st) sv o z
                Hsv Ho Hz) as (H1 & _).
    exists (programmatic_transform (with_range ds de st) o).
    split; [exact H1|]. split.
    + rewrite _applyZoomTranslation_effects. unfold apply_effects.
      change (svg (with_range ds de st)) with (svg st).
      change (_originXScale (with_range ds de st)) with (_originXScale st).
      change (zoom (with_range ds de st)) with (zoom st).
      rewrite Hsv, Ho, Hz. reflexivity.
    + unfold programmatic_transform. apply stored_scale_ge_one.
  - intros CO parse filt get data lst. split.
    + intros (m & H). destruct data; try discriminate. reflexivity.
    + intros ->. eexists. reflexivity.
Qed.

(** A non-numeric start beside the numeric end 260 on a connected element:
    the application does what it does for the range 0..260, and stores a
    transform of scale 1000/261. *)
Lemma malformed_range_read_as_zero_witness :
  let st := run_frame
              (connected (Some (N 1000)) (N 500) (Some (N 250)) (Some (N 260))
                 zero zero) in
  (effects (_applyZoomTranslation (with_range (Some NaN) (Some (N 260)) st))
   = effects (_applyZoomTranslation (with_range (Some zero) (Some (N 260)) st))
   /\ current_transform
        (_applyZoomTranslation (with_range (Some NaN) (Some (N 260)) st))
      = current_transform
          (_applyZoomTranslation (with_range (Some zero) (Some (N 260)) st))
   /\ xScale (_applyZoomTranslation (with_range (Some NaN) (Some (N 260)) st))
      = xScale (_applyZoomTranslation (with_range (Some zero) (Some (N 260)) st)))
  /\ current_transform
       (_applyZoomTranslation (with_range (Some NaN) (Some (N 260)) st))
     = Some (mkTransform (Fin (1000 # 261)) (Fin (500 # 261)) (Fin 0)).
Proof.
  split; [|by_evaluation].
  apply (malformed_range_read_as_zero
           (run_frame
              (connected (Some (N 1000)) (N 500) (Some (N 250)) (Some (N 260))
                 zero zero))
           (Some NaN) (Some (N 260)) (Some zero) (Some (N 260))).
  - right. split; [right; reflexivity | reflexivity].
  - left. reflexivity.
Defined.

(** C9 as stated fails.  With a non-numeric display-start and no display-end
    the application completes like any other: it hands the zoom behaviour the
    transform computed for the pair (0, 0) and renders; nothing tells the
    caller.  And a degenerate request is not always clamped to a valid
    value: with length 0, start 1 and end 0 the transform kept on the surface
    is [NaN] throughout. *)
Lemma malformed_range_not_reported :
  (let st := run_frame
               (connected (Some (N 1000)) (N 500) (Some NaN) None zero zero) in
   effects (_applyZoomTranslation st)
   = effects st
       ++ [ApplyEntered;
           ZoomEvent (mkTransform (Fin 1000) (Fin 500) (Fin 0));
           Rendered]
   /\ changes (effects (_applyZoomTranslation st)) = [])
  /\ (let st := connected (Some (N 0)) (N 100) (Some (N 1)) (Some (N 0))
                  zero zero in
      current_transform (_applyZoomTranslation st)
      = Some (mkTransform NaN NaN NaN)).
Proof. by_evaluation. Qed.

(* ------------------------------------------------------------------ *)
(** ** Gestures and the origin scale *)

Lemma gesture_facts (t : Transform) (st : State) (sv : Surface) (o : ScaleLinear) :
  svg st = Some sv ->
  _originXScale st = Some o ->
  xScale (gesture t st) = Some (rescaleX t o)
  /\ _originXScale (gesture t st) = Some o
  /\ svg (gesture t st) = Some (mkSurface (zoom_bound sv) (Some t))
  /\ length (gesture t st) = length st
  /\ display_start (gesture t st) = display_start st
  /\ display_end (gesture t st) = display_end st
  /\ zoom (gesture t st) = zoom st.
Proof.
  intros Hsv Ho. unfold gesture. rewrite Hsv. unfold call_zoom_transform.
  set (st2 := set__svg (Some (mkSurface (zoom_bound sv) (Some t))) st).
  assert (Ho2 : _originXScale st2 = Some o) by exact Ho.
  destruct (zoomed_scheduler t st2) as (_ & _ & H3 & _ & H5).
  destruct (zoomed_props t st2) as (P1 & P2 & P3).
  split; [apply zoomed_xScale, Ho2|].
  split; [rewrite H5; exact Ho2|].
  split; [unfold svg; rewrite H3; reflexivity|].
  split; [rewrite P1; reflexivity|].
  split; [rewrite P2; reflexivity|].
  split; [rewrite P3; reflexivity|].
  unfold zoom, zoomed, xScale. simpl. rewrite Ho. simpl.
  destruct (domain (rescaleX t o)). simpl.
  destruct (dontDispatch st); reflexivity.
Qed.

(** X1.  Gestures never compound.  Whatever gestures came before, after a
    gesture with transform [t] the live scale is the origin scale rescaled by
    [t] alone, the origin scale is the one it was, and the surface keeps
    [t]: the view depends on the last transform only. *)
Theorem gestures_rebase_on_origin (st : State) (sv : Surface) (o : ScaleLinear)
    (ts : list Transform) (t : Transform) :
  svg st = Some sv ->
  _originXScale st = Some o ->
  let st' := gesture t (fold_left (fun s t' => gesture t' s) ts st) in
  xScale st' = Some (rescaleX t o)
  /\ xScale st' = xScale (gesture t st)
  /\ _originXScale st' = Some o
  /\ current_transform st' = Some t.
Proof.
  intros Hsv Ho.
  assert (Inv : forall ts st0 sv0,
            svg st0 = Some sv0 -> _originXScale st0 = Some o ->
            exists sv1, svg (fold_left (fun s t' => gesture t' s) ts st0) = Some sv1
                        /\ _originXScale (fold_left (fun s t' => gesture t' s) ts st0)
                           = Some o).
  { induction ts0 as [|t0 ts0 IH]; intros st0 sv0 H1 H2; simpl.
    - exists sv0. auto.
    - destruct (gesture_facts t0 st0 sv0 o H1 H2) as (_ & G2 & G3 & _).
      apply (IH _ _ G3 G2). }
  destruct (Inv ts st sv Hsv Ho) as (sv1 & S1 & O1).
  destruct (gesture_facts t _ sv1 o S1 O1) as (G1 & G2 & G3 & _).
  destruct (gesture_facts t st sv o Hsv Ho) as (F1 & _).
  cbv zeta. split; [exact G1|]. split; [rewrite G1, F1; reflexivity|].
  split; [exact G2|]. unfold current_transform. rewrite G3. reflexivity.
Qed.

(** Zooming in twenty times at the right edge and then dragging back to the
    identity shows all 10 positions again. *)
Lemma gestures_rebase_on_origin_witness :
  let st := run_frame
              (connected (Some (N 10)) (N 100) (Some (N 1)) (Some (N 10))
                 zero zero) in
  let st' := gesture zoomIdentity
               (fold_left (fun s t' => gesture t' s)
                  [mkTransform (N 20) (N (-1900)) zero] st) in
  (xScale st' = Some (rescaleX zoomIdentity (mkScale (N 1, N 11) (N 0, N 100)))
   /\ xScale st' = xScale (gesture zoomIdentity st)
   /\ _originXScale st' = Some (mkScale (N 1, N 11) (N 0, N 100))
   /\ current_transform st' = Some zoomIdentity)
  /\ xScale st' = Some (mkScale (N 1, N 11) (N 0, N 100)).
Proof.
  split; [|by_evaluation].
  apply (gestures_rebase_on_origin
           (run_frame
              (connected (Some (N 10)) (N 100) (Some (N 1)) (Some (N 10))
                 zero zero))
           (mkSurface true (Some zoomIdentity))
           (mkScale (N 1, N 11) (N 0, N 100))
           [mkTransform (N 20) (N (-1900)) zero] zoomIdentity);
    vm_compute; reflexivity.
Defined.

(** X2.  The engine reads the visible range from the properties and never
    writes it: a gesture leaves [length], [display-start] and [display-end]
    as they were, so the next programmatic application puts back the
    transform computed from them, whatever the gesture did. *)
Theorem reapply_undoes_gesture (st : State) (sv : Surface) (o : ScaleLinear)
    (z : ZoomBehavior) (t : Transform) :
  svg st = Some sv ->
  _originXScale st = Some o ->
  zoom st = Some z ->
  length (gesture t st) = length st
  /\ display_start (gesture t st) = display_start st
  /\ display_end (gesture t st) = display_end st
  /\ current_transform (gesture t st) = Some t
  /\ current_transform (_applyZoomTranslation (gesture t st))
     = Some (programmatic_transform st o)
  /\ current_transform (_applyZoomTranslation (gesture t st))
     = current_transform (_applyZoomTranslation st)
  /\ xScale (_applyZoomTranslation (gesture t st))
     = xScale (_applyZoomTranslation st).
Proof.
  intros Hsv Ho Hz.
  destruct (gesture_facts t st sv o Hsv Ho) as (_ & G2 & G3 & G4 & G5 & G6 & G7).
  rewrite Hz in G7.
  destruct (_applyZoomTranslation_result _ _ o z G3 G2 G7) as (A1 & A2 & _).
  destruct (_applyZoomTranslation_result st sv o z Hsv Ho Hz) as (B1 & B2 & _).
  assert (E : programmatic_transform (gesture t st) o = programmatic_transform st o).
  { unfold programmatic_transform. rewrite G4, G5, G6. reflexivity. }
  rewrite E in A1, A2.
  repeat split; try assumption.
  - unfold current_transform. rewrite G3. reflexivity.
  - rewrite A1, B1. reflexivity.
  - rewrite A2, B2. reflexivity.
Qed.

(** After the zoom onto the right edge, a re-application shows 1..10 again. *)
Lemma reapply_undoes_gesture_witness :
  let st := run_frame
              (connected (Some (N 10)) (N 100) (Some (N 1)) (Some (N 10))
                 zero zero) in
  let t := mkTransform (N 20) (N (-1900)) zero in
  current_transform (gesture t st) = Some t
  /\ current_transform (_applyZoomTranslation (gesture t st)) = Some zoomIdentity.
Proof.
  destruct (reapply_undoes_gesture
              (run_frame
                 (connected (Some (N 10)) (N 100) (Some (N 1)) (Some (N 10))
                    zero zero))
              (mkSurface true (Some zoomIdentity))
              (mkScale (N 1, N 11) (N 0, N 100))
              (mkZoom (one, PInf) ((zero, zero), (N 100, zero))
                 ((zero, zero), (N 100, zero)))
              (mkTransform (N 20) (N (-1900)) zero))
    as (_ & _ & _ & H4 & H5 & _); try (vm_compute; reflexivity).
  split; [exact H4|]. rewrite H5. vm_compute. reflexivity.
Defined.

(* ------------------------------------------------------------------ *)
(** ** Pixel geometry after a programmatic application *)








(* ------------------------------------------------------------------ *)
(** ** Sequences of operations *)

Lemma zoomed_counts (t : Transform) (st : State) :
  applied (effects (zoomed t st)) = applied (effects st)
  /\ (List.length (changes (effects (zoomed t st)))
      <= S (List.length (changes (effects st))))%nat.
Proof.
  split.
  - unfold zoomed, xScale. simpl.
    destruct (_originXScale st) as [o|]; simpl.
    + destruct (domain (rescaleX t o)); simpl.
      destruct (dontDispatch st); simpl; rewrite !applied_app; simpl; lia.
    + destruct (_xScale st) as [s|]; simpl.
      * destruct (domain s); destruct (dontDispatch st); simpl;
          rewrite !applied_app; simpl; lia.
      * destruct (dontDispatch st); simpl; rewrite !applied_app; simpl; lia.
  - rewrite zoomed_changes, length_app.
    destruct (dontDispatch st); simpl; [lia|].
    destruct (xScale (zoomed t st)); simpl; lia.
Qed.

Lemma request_counts (st : State) :
  applied (effects (applyZoomTranslation st)) = applied (effects st)
  /\ changes (effects (applyZoomTranslation st)) = changes (effects st).
Proof.
  unfold applyZoomTranslation. destruct (aboutToApply st); simpl.
  - auto.
  - rewrite applied_app, changes_app. simpl. rewrite app_nil_r. split; lia || reflexivity.
Qed.

Lemma apply_effects_applied (st : State) : applied (apply_effects st) = 1%nat.
Proof.
  unfold apply_effects. destruct (svg st); [|reflexivity].
  destruct (_originXScale st); [|reflexivity].
  destruct (zoom st); reflexivity.
Qed.

Lemma frame_callbacks_applied (n : nat) (st : State) :
  applied (effects (Nat.iter n frame_callback st)) = (applied (effects st) + n)%nat.
Proof.
  revert st. induction n as [|n IH]; intros st; [simpl; lia|].
  rewrite Nat.iter_succ_r, IH. unfold frame_callback.
  rewrite _applyZoomTranslation_effects, applied_app, apply_effects_applied.
  simpl. lia.
Qed.

(** What one operation can add: an application only in a frame, a
    notification only in a gesture. *)
Lemma run_op_counts
    (super : string -> option string -> option string -> State -> State)
    (op : Op) (st : State) :
  (forall name o n st0,
      frames (super name o n st0) = frames st0
      /\ aboutToApply (super name o n st0) = aboutToApply st0
      /\ effects (super name o n st0) = effects st0) ->
  scheduler_ok st ->
  scheduler_ok (run_op super op st)
  /\ (applied (effects (run_op super op st))
      <= applied (effects st) + count_frames [op])%nat
  /\ (List.length (changes (effects (run_op super op st)))
      <= List.length (changes (effects st)) + count_gestures [op])%nat.
Proof.
  intros Hsup Hok.
  destruct scheduler_ok_invariant
    as (_ & I1 & _ & I3 & I4 & I5 & I6 & I7 & I8).
  destruct op as [|name o n|v| |t|]; simpl.
  - split; [apply I5, Hok|].
    unfold connectedCallback. simpl.
    rewrite !applied_app, !changes_app, !length_app. simpl. lia.
  - split.
    { apply I8; [|exact Hok]. intros st' H. unfold scheduler_ok in *.
      destruct (Hsup name o n st') as (-> & -> & _). exact H. }
    unfold attributeChangedCallback.
    destruct (Hsup name o n st) as (_ & _ & He).
    destruct (zoom (super name o n st)); [|rewrite He; lia].
    destruct (negb (option_string_eqb o (null_as_absent n))); [|rewrite He; lia].
    match goal with |- context [applyZoomTranslation ?s] =>
      destruct (request_counts s) as (-> & ->) end.
    destruct (existsb (String.eqb name) ATTRIBUTES_THAT_TRIGGER_REFRESH); simpl;
      rewrite ?applied_app, ?changes_app, ?length_app, He; simpl; lia.
  - split; [apply I4, Hok|].
    unfold set_svg. destruct v as [sv|]; [|lia]. destruct (_zoom st); [|lia].
    match goal with |- context [applyZoomTranslation ?s] =>
      destruct (request_counts s) as (-> & ->) end.
    simpl. lia.
  - split; [apply I6, Hok|].
    unfold render. simpl. rewrite applied_app, changes_app, length_app.
    destruct (request_counts st) as (-> & ->). simpl. lia.
  - split; [apply I7, Hok|].
    unfold gesture. destruct (svg st) as [sv|]; [|lia].
    unfold call_zoom_transform.
    match goal with |- context [zoomed t ?s] =>
      destruct (zoomed_counts t s) as (E1 & E2) end.
    simpl in E1, E2. rewrite E1. lia.
  - split; [apply I3, Hok|].
    unfold run_frame. rewrite frame_callbacks_applied, frame_callbacks_no_change.
    simpl. red in Hok. destruct (aboutToApply st); lia.
Qed.

(** X4.  At most one application per frame.  Starting from a consistent
    scheduler, whatever the page, the user and the browser do to the
    element, and in whatever order, the bound [_applyZoomTranslation] is
    entered at most once per animation frame, never outside a frame, and at
    most one frame callback is ever waiting.  (The base class's attribute
    callback is assumed to leave the scheduler and the effects alone.) *)
Theorem at_most_one_apply_per_frame
    (super : string -> option string -> option string -> State -> State)
    (ops : list Op) (st : State) :
  (forall name o n st0,
      frames (super name o n st0) = frames st0
      /\ aboutToApply (super name o n st0) = aboutToApply st0
      /\ effects (super name o n st0) = effects st0) ->
  scheduler_ok st ->
  scheduler_ok (run_ops super ops st)
  /\ (frames (run_ops super ops st) <= 1)%nat
  /\ (applied (effects (run_ops super ops st))
      <= applied (effects st) + count_frames ops)%nat.
Proof.
  intros Hsup. revert st.
  assert (H : forall ops st, scheduler_ok st ->
            scheduler_ok (run_ops super ops st)
            /\ (applied (effects (run_ops super ops st))
                <= applied (effects st) + count_frames ops)%nat).
  { induction ops0 as [|op ops0 IH]; intros st Hok; simpl.
    - split; [exact Hok | lia].
    - destruct (run_op_counts super op st Hsup Hok) as (Hok' & Ha & _).
      destruct (IH _ Hok') as (Hok'' & Ha').
      split; [exact Hok''|]. simpl in Ha.
      destruct op; simpl in *; lia. }
  intros st Hok. destruct (H ops st Hok) as (Hok' & Ha).
  split; [exact Hok'|]. split; [|exact Ha].
  red in Hok'. destruct (aboutToApply (run_ops super ops st)); lia.
Qed.

(** Connect, give a surface, change the length, render twice, then let one
    frame pass: one application. *)
Lemma at_most_one_apply_per_frame_witness :
  let super := reflect_length (Some (N 2000)) in
  let ops := [OpConnect; OpSetSvg (Some (mkSurface false None));
              OpAttribute "length" (Some "1000") (Some "2000");
              OpRender; OpRender; OpFrame]%string in
  let st := constructor (Some (N 1000)) (N 500) (Some (N 1)) (Some (N 1000))
              zero zero in
  (scheduler_ok (run_ops super ops st)
   /\ (frames (run_ops super ops st) <= 1)%nat
   /\ (applied (effects (run_ops super ops st))
       <= applied (effects st) + count_frames ops)%nat)
  /\ applied (effects (run_ops super ops st)) = 1%nat.
Proof.
  split; [|by_evaluation].
  apply (at_most_one_apply_per_frame (reflect_length (Some (N 2000)))).
  - intros name o n st0. unfold reflect_length.
    destruct (String.eqb name "length"); repeat split.
  - reflexivity.
Defined.

(** X5.  Notifications come from gestures only.  Over any sequence of
    operations the number of "change" notifications grows by at most one per
    gesture: connecting, attribute changes, surface assignments, renders and
    animation frames never emit one.  (Same assumption on the base class.) *)
Theorem notifications_only_from_gestures
    (super : string -> option string -> option string -> State -> State)
    (ops : list Op) (st : State) :
  (forall name o n st0,
      frames (super name o n st0) = frames st0
      /\ aboutToApply (super name o n st0) = aboutToApply st0
      /\ effects (super name o n st0) = effects st0) ->
  scheduler_ok st ->
  (List.length (changes (effects (run_ops super ops st)))
   <= List.length (changes (effects st)) + count_gestures ops)%nat
  /\ (count_gestures ops = 0%nat ->
      List.length (changes (effects (run_ops super ops st)))
      <= List.length (changes (effects st)))%nat.
Proof.
  intros Hsup. revert st.
  assert (H : forall ops st, scheduler_ok st ->
            (List.length (changes (effects (run_ops super ops st)))
             <= List.length (changes (effects st)) + count_gestures ops)%nat).
  { induction ops0 as [|op ops0 IH]; intros st Hok; simpl; [lia|].
    destruct (run_op_counts super op st Hsup Hok) as (Hok' & _ & Hc).
    specialize (IH _ Hok'). simpl in Hc.
    destruct op; simpl in *; lia. }
  intros st Hok. specialize (H ops st Hok). split; [exact H | lia].
Qed.

(** The same sequence with a drag in the middle: one notification. *)
Lemma notifications_only_from_gestures_witness :
  let super := reflect_length (Some (N 2000)) in
  let ops := [OpConnect; OpSetSvg (Some (mkSurface false None)); OpFrame;
              OpGesture zoomIdentity;
              OpAttribute "length" (Some "1000") (Some "2000");
              OpRender; OpFrame]%string in
  let st := constructor (Some (N 1000)) (N 500) (Some (N 1)) (Some (N 1000))
              zero zero in
  ((List.length (changes (effects (run_ops super ops st)))
    <= List.length (changes (effects st)) + count_gestures ops)%nat
   /\ (count_gestures ops = 0%nat ->
       List.length (changes (effects (run_ops super ops st)))
       <= List.length (changes (effects st)))%nat)
  /\ changes (effects (run_ops super ops st)) = [(N 1, N 1000)].
Proof.
  split; [|by_evaluation].
  apply (notifications_only_from_gestures (reflect_length (Some (N 2000)))).
  - intros name o n st0. unfold reflect_length.
    destruct (String.eqb name "length"); repeat split.
  - reflexivity.
Defined.

(* ------------------------------------------------------------------ *)
(** ** Attribute changes that do not rebuild *)

Lemma option_string_eqb_refl (a : option string) : option_string_eqb a a = true.
Proof. destruct a as [s|]; simpl; [apply String.eqb_refl | reflexivity]. Qed.

Lemma not_triggering (name : string) :
  ~ In name ATTRIBUTES_THAT_TRIGGER_REFRESH ->
  existsb (String.eqb name) ATTRIBUTES_THAT_TRIGGER_REFRESH = false.
Proof.
  intros H. destruct (existsb _ _) eqn:E; [|reflexivity].
  apply existsb_exists in E. destruct E as (a & Hin & Heq).
  apply String.eqb_eq in Heq. subst a. contradiction.
Qed.

Lemma request_frame (st : State) :
  zoom (applyZoomTranslation st) = zoom st
  /\ svg (applyZoomTranslation st) = svg st
  /\ length (applyZoomTranslation st) = length st
  /\ display_start (applyZoomTranslation st) = display_start st
  /\ display_end (applyZoomTranslation st) = display_end st
  /\ xScale (applyZoomTranslation st) = xScale st
  /\ _originXScale (applyZoomTranslation st) = _originXScale st.
Proof.
  unfold applyZoomTranslation. destruct (aboutToApply st); repeat split.
Qed.

(** X6.  Attribute changes that do not rebuild.  When the new value equals
    the old one, with the string "null" counting as an absent value, the
    callback does nothing beyond the base class's own work.  A change of an
    attribute other than [length], [width] and [height] (with the zoom
    behaviour in place) rebuilds nothing and only requests a
    re-application.  In every case the callback leaves the zoom behaviour
    and the surface as they were, applies no transform itself and emits no
    notification: the extents given to the zoom behaviour at connect time
    are never brought up to date with a new width. *)
Theorem attribute_change_without_rebuild
    (super : string -> option string -> option string -> State -> State)
    (name : string) (oldValue newValue : option string) (st : State) :
  let st1 := super name oldValue newValue st in
  let st' := attributeChangedCallback super name oldValue newValue st in
  (oldValue = null_as_absent newValue -> st' = st1)
  /\ (oldValue = None -> newValue = Some "null"%string -> st' = st1)
  /\ (forall z, zoom st1 = Some z ->
        oldValue <> null_as_absent newValue ->
        ~ In name ATTRIBUTES_THAT_TRIGGER_REFRESH ->
        st' = applyZoomTranslation st1
        /\ xScale st' = xScale st1
        /\ _originXScale st' = _originXScale st1
        /\ aboutToApply st' = true)
  /\ zoom st' = zoom st1
  /\ svg st' = svg st1
  /\ applied (effects st') = applied (effects st1)
  /\ changes (effects st') = changes (effects st1).
Proof.
  intros st1 st'. subst st'. unfold attributeChangedCallback. fold st1.
  split.
  { intros E. destruct (zoom st1); [|reflexivity].
    rewrite E, option_string_eqb_refl. reflexivity. }
  split.
  { intros -> ->. destruct (zoom st1); reflexivity. }
  split.
  { intros z Hz Hne Hn. rewrite Hz, (option_string_eqb_neq _ _ Hne).
    simpl negb. cbv iota. rewrite (not_triggering name Hn).
    destruct (request_frame st1) as (_ & _ & _ & _ & _ & R6 & R7).
    split; [reflexivity|]. split; [exact R6|]. split; [exact R7|].
    unfold applyZoomTranslation. destruct (aboutToApply st1) eqn:Ha;
      [exact Ha | reflexivity]. }
  destruct (zoom st1) as [z|] eqn:Hz; [|repeat split; exact Hz].
  destruct (negb (option_string_eqb oldValue (null_as_absent newValue)));
    [|repeat split; exact Hz].
  match goal with |- context [applyZoomTranslation ?s] =>
    destruct (request_frame s) as (R1 & R2 & _);
    destruct (request_counts s) as (C1 & C2)
  end.
  rewrite R1, R2, C1, C2.
  destruct (existsb (String.eqb name) ATTRIBUTES_THAT_TRIGGER_REFRESH); simpl;
    rewrite ?applied_app, ?changes_app; simpl; rewrite ?app_nil_r;
    repeat split; try exact Hz; lia.
Qed.

(** A connected element 500 pixels wide whose width becomes 300: the scale
    is rebuilt for 300 pixels, but the zoom behaviour still carries the
    extent of 500.  And a change of [display-start] only requests a
    re-application. *)
Lemma attribute_change_without_rebuild_witness :
  let narrow := fun (_ : string) (_ _ : option string) (st : State) =>
                  mkState (length st) (N 300) (display_start st) (display_end st)
                    (margin_left st) (margin_right st) (_originXScale st)
                    (_xScale st) (_zoom st) (_svg st) (dontDispatch st)
                    (aboutToApply st) (frames st) (effects st) in
  let st := run_frame
              (connected (Some (N 1000)) (N 500) (Some (N 1)) (Some (N 1000))
                 zero zero) in
  (zoom (attributeChangedCallback narrow "width" (Some "500"%string)
           (Some "300"%string) st)
   = Some (mkZoom (one, PInf) ((zero, zero), (N 500, zero))
             ((zero, zero), (N 500, zero)))
   /\ xScale (attributeChangedCallback narrow "width" (Some "500"%string)
                (Some "300"%string) st)
      = Some (mkScale (N 1, N 1001) (N 0, N 300)))
  /\ attributeChangedCallback (fun _ _ _ s => s) "display-start"
       (Some "1"%string) (Some "5"%string) st
     = applyZoomTranslation st.
Proof.
  split.
  - pose proof (attribute_change_without_rebuild
                  (fun (_ : string) (_ _ : option string) (st : State) =>
                     mkState (length st) (N 300) (display_start st)
                       (display_end st) (margin_left st) (margin_right st)
                       (_originXScale st) (_xScale st) (_zoom st) (_svg st)
                       (dontDispatch st) (aboutToApply st) (frames st)
                       (effects st))
                  "width" (Some "500"%string) (Some "300"%string)
                  (run_frame
                     (connected (Some (N 1000)) (N 500) (Some (N 1))
                        (Some (N 1000)) zero zero)))
      as (_ & _ & _ & Hz & _).
    cbv zeta in Hz. cbv zeta. split; [rewrite Hz|]; vm_compute; reflexivity.
  - pose proof (attribute_change_without_rebuild (fun _ _ _ s => s)
                  "display-start" (Some "1"%string) (Some "5"%string)
                  (run_frame
                     (connected (Some (N 1000)) (N 500) (Some (N 1))
                        (Some (N 1000)) zero zero)))
      as (_ & _ & H & _).
    cbv zeta in H. cbv zeta.
    apply (H (mkZoom (one, PInf) ((zero, zero), (N 500, zero))
                ((zero, zero), (N 500, zero)))).
    + vm_compute. reflexivity.
    + discriminate.
    + simpl. intros [E | [E | [E | []]]]; discriminate.
Defined.

(* ------------------------------------------------------------------ *)
(** ** nightingale-links: radius and position of the contact points *)

(** X7.  The radius of a contact point is never below 0.8 (1.2 when
    selected) and never above 0.4 (0.6) times the larger of 2 and the track
    height, whenever the height and the base width are numbers.  In
    particular the sentinel [-1] that the base width takes while no scale
    exists gives the minimal radius, never a negative one. *)
Theorem radius_bounds (el : LinksTrack.Element) :
  isNaN (LinksTrack.height el) = false ->
  isNaN (getSingleBaseWidth (LinksTrack.engine el)) = false ->
  (Fin (4 # 5) <=? LinksTrack.getRadius el false) = true
  /\ (Fin (6 # 5) <=? LinksTrack.getRadius el true) = true
  /\ (LinksTrack.getRadius el false
      <=? Fin (2 # 5) * Num.max two (LinksTrack.height el)) = true
  /\ (LinksTrack.getRadius el true
      <=? Fin (3 # 5) * Num.max two (LinksTrack.height el)) = true
  /\ (xScale (LinksTrack.engine el) = None ->
      LinksTrack.getRadius el false = Fin (4 # 5)
      /\ LinksTrack.getRadius el true = Fin (6 # 5)).
Proof.
  intros Hh Hg. unfold LinksTrack.getRadius.
  assert (Hs : xScale (LinksTrack.engine el) = None ->
               getSingleBaseWidth (LinksTrack.engine el) = Fin (-1)).
  { intros E. unfold getSingleBaseWidth. rewrite E. reflexivity. }
  destruct (xScale (LinksTrack.engine el)) as [s|].
  - clear Hs.
    destruct (LinksTrack.height el) as [| | |h]; try discriminate;
      destruct (getSingleBaseWidth (LinksTrack.engine el)) as [| | |g];
      try discriminate;
      unfold two; num_unfold; num_step;
      repeat (q_test; num_step);
      (split; [|split; [|split; [|split]]]); try discriminate;
      try (vm_compute; reflexivity); q_close.
  - rewrite (Hs eq_refl).
    destruct (LinksTrack.height el) as [| | |h]; try discriminate;
      unfold two; num_unfold; num_step;
      repeat (q_test; num_step);
      (split; [|split; [|split; [|split]]]); try (intros _; split);
      try (vm_compute; reflexivity); q_close.
Qed.

(** A track 20 pixels high: before the scale exists, and once bases are 50
    pixels wide. *)
Lemma radius_bounds_witness :
  let st0 := constructor (Some (N 10)) (N 500) (Some (N 1)) (Some (N 10))
               zero zero in
  let el0 := LinksTrack.mkElement (N 20) st0 None false [] 0 in
  let el1 := LinksTrack.mkElement (N 20) (connectedCallback st0) None false [] 0 in
  LinksTrack.getRadius el0 false = Fin (4 # 5)
  /\ (Fin (4 # 5) <=? LinksTrack.getRadius el1 false) = true
  /\ LinksTrack.getRadius el1 false = Fin 8
  /\ LinksTrack.getRadius el1 true = Fin 12.
Proof.
  destruct (radius_bounds
              (LinksTrack.mkElement (N 20)
                 (constructor (Some (N 10)) (N 500) (Some (N 1)) (Some (N 10))
                    zero zero) None false [] 0))
    as (_ & _ & _ & _ & H0); try reflexivity.
  destruct (radius_bounds
              (LinksTrack.mkElement (N 20)
                 (connectedCallback
                    (constructor (Some (N 10)) (N 500) (Some (N 1)) (Some (N 10))
                       zero zero)) None false [] 0))
    as (H1 & _); try (vm_compute; reflexivity).
  split; [apply H0; reflexivity|]. split; [exact H1|].
  split; vm_compute; reflexivity.
Defined.



(* ------------------------------------------------------------------ *)
(** ** nightingale-links: selection and highlight events *)

Lemma js_leb_total (a b : nat) :
  LinksTrack.js_leb a b = false -> LinksTrack.js_leb b a = true.
Proof.
  unfold LinksTrack.js_leb. intros H.
  destruct (String.leb_total (LinksTrack.toString a) (LinksTrack.toString b))
    as [E | E]; [congruence | exact E].
Qed.

Lemma js_insert_perm (a : nat) (l : list nat) :
  Permutation (a :: l) (LinksTrack.js_insert a l).
Proof.
  induction l as [|b l IH]; simpl; [apply Permutation_refl|].
  destruct (LinksTrack.js_leb a b); [apply Permutation_refl|].
  apply perm_trans with (b :: a :: l); [apply perm_swap|].
  apply perm_skip, IH.
Qed.

Lemma js_insert_hd (a b : nat) (l : list nat) :
  LinksTrack.js_leb b a = true ->
  HdRel (fun x y => LinksTrack.js_leb x y = true) b l ->
  HdRel (fun x y => LinksTrack.js_leb x y = true) b (LinksTrack.js_insert a l).
Proof.
  intros Hba Hl. destruct l as [|c l]; simpl.
  - constructor. exact Hba.
  - destruct (LinksTrack.js_leb a c); constructor; [exact Hba|].
    inversion Hl. assumption.
Qed.

Lemma js_insert_sorted (a : nat) (l : list nat) :
  Sorted (fun x y => LinksTrack.js_leb x y = true) l ->
  Sorted (fun x y => LinksTrack.js_leb x y = true) (LinksTrack.js_insert a l).
Proof.
  induction 1 as [|b l Hs IH Hd]; simpl.
  - repeat constructor.
  - destruct (LinksTrack.js_leb a b) eqn:E.
    + constructor; [constructor; assumption | constructor; exact E].
    + constructor; [exact IH|].
      apply js_insert_hd; [apply js_leb_total, E | exact Hd].
Qed.

Lemma js_sort_spec (l : list nat) :
  Permutation l (LinksTrack.js_sort l)
  /\ Sorted (fun x y => LinksTrack.js_leb x y = true) (LinksTrack.js_sort l).
Proof.
  induction l as [|a l [IHp IHs]]; simpl.
  - split; constructor.
  - split; [|apply js_insert_sorted, IHs].
    apply perm_trans with (a :: LinksTrack.js_sort l);
      [apply perm_skip, IHp | apply js_insert_perm].
Qed.

(** X9.  The highlight of a selection.  Selecting a residue [d] that has an
    entry in the contact table dispatches one "mouseover" event whose
    highlight lists [d] and each of its contacts once, each as [r:r], joined
    by commas, in the order of their decimal digits read as text (not of
    their values); the residue becomes the selected one.  For a residue
    without an entry the handler ends in a [TypeError] after having recorded
    the selection, and dispatches nothing. *)
Theorem select_node_highlight (el : LinksTrack.Element)
    (c : LinksTrack.ContactObject) (d : nat) :
  LinksTrack.contactsObj el = Some c ->
  (forall cs, LinksTrack.contacts_of d (LinksTrack.contacts c) = Some cs ->
     exists el' rs,
       LinksTrack._dispatchSelectNode d el = LinksTrack.Done el'
       /\ LinksTrack.dispatched el'
          = LinksTrack.dispatched el
              ++ [LinksTrack.mkHighlight "mouseover"
                    (Some (LinksTrack.join
                             (map (fun r => (LinksTrack.toString r ++ ":"
                                             ++ LinksTrack.toString r)%string) rs)))]
       /\ Permutation (cs ++ [d]) rs
       /\ Sorted (fun x y => String.leb (LinksTrack.toString x)
                               (LinksTrack.toString y) = true) rs
       /\ option_map LinksTrack.selected (LinksTrack.contactsObj el') = Some (Some d))
  /\ (LinksTrack.contacts_of d (LinksTrack.contacts c) = None ->
      exists el',
        LinksTrack._dispatchSelectNode d el = LinksTrack.Raised el'
        /\ LinksTrack.dispatched el' = LinksTrack.dispatched el
        /\ option_map LinksTrack.selected (LinksTrack.contactsObj el') = Some (Some d)).
Proof.
  intros Hc. unfold LinksTrack._dispatchSelectNode. rewrite Hc. simpl. split.
  - intros cs Hcs. rewrite Hcs.
    destruct (js_sort_spec (cs ++ [d])) as (Hp & Hs).
    eexists. exists (LinksTrack.js_sort (cs ++ [d])).
    split; [reflexivity|]. simpl. repeat split; assumption.
  - intros Hn. rewrite Hn. eexists. split; [reflexivity|]. simpl. auto.
Qed.

(** Residue 9 with the contacts 10 and 1: the highlight reads
    [1:1,10:10,9:9], 10 before 9. *)
Lemma select_node_highlight_witness :
  let c := LinksTrack.mkContacts [(9, [10; 1]); (10, [9]); (1, [9])]%nat 1 None false in
  let el := LinksTrack.mkElement (N 20)
              (constructor None zero None None zero zero) (Some c) true [] 0 in
  (exists el' rs,
     LinksTrack._dispatchSelectNode 9 el = LinksTrack.Done el'
     /\ LinksTrack.dispatched el'
        = LinksTrack.dispatched el
            ++ [LinksTrack.mkHighlight "mouseover"
                  (Some (LinksTrack.join
                           (map (fun r => (LinksTrack.toString r ++ ":"
                                           ++ LinksTrack.toString r)%string) rs)))]
     /\ Permutation ([10; 1] ++ [9])%nat rs
     /\ Sorted (fun x y => String.leb (LinksTrack.toString x)
                             (LinksTrack.toString y) = true) rs
     /\ option_map LinksTrack.selected (LinksTrack.contactsObj el') = Some (Some 9%nat))
  /\ LinksTrack.dispatched (LinksTrack.after (LinksTrack._dispatchSelectNode 9 el))
     = [LinksTrack.mkHighlight "mouseover" (Some "1:1,10:10,9:9"%string)].
Proof.
  split; [|by_evaluation].
  destruct (select_node_highlight
              (LinksTrack.mkElement (N 20)
                 (constructor None zero None None zero zero)
                 (Some (LinksTrack.mkContacts [(9, [10; 1]); (10, [9]); (1, [9])]%nat
                          1 None false)) true [] 0)
              (LinksTrack.mkContacts [(9, [10; 1]); (10, [9]); (1, [9])]%nat 1 None false)
              9 eq_refl) as (H & _).
  apply (H [10; 1]%nat). reflexivity.
Defined.

(** X10.  Hold and release.  While the hold is on, hovering in or out of a
    contact point changes nothing and dispatches nothing.  A click on a
    residue of the table toggles the hold, dispatches one "mouseover" event
    and leaves the clicked residue selected — also the click that releases
    the hold, whose clearing of the selection is overwritten at once.
    Hovering out without hold clears the selection and dispatches a
    "mouseout" event without highlight. *)
Theorem hold_pins_selection (el : LinksTrack.Element)
    (c : LinksTrack.ContactObject) (d : nat) :
  LinksTrack.contactsObj el = Some c ->
  (LinksTrack.isHold c = true ->
     LinksTrack.mouseover d el = LinksTrack.Done el
     /\ LinksTrack.mouseout el = el)
  /\ (forall cs, LinksTrack.contacts_of d (LinksTrack.contacts c) = Some cs ->
        exists el',
          LinksTrack.click d el = LinksTrack.Done el'
          /\ LinksTrack.contactsObj el'
             = Some (LinksTrack.mkContacts (LinksTrack.contacts c)
                       (LinksTrack.maxNumberOfContacts c) (Some d)
                       (negb (LinksTrack.isHold c)))
          /\ LinksTrack.dispatched el'
             = LinksTrack.dispatched el
                 ++ [LinksTrack.getHighlightEvent "mouseover"
                       (Some (LinksTrack.js_sort (cs ++ [d])))]
          /\ (forall d2 cs2,
                LinksTrack.contacts_of d2 (LinksTrack.contacts c) = Some cs2 ->
                exists el'',
                  LinksTrack.click d2 el' = LinksTrack.Done el''
                  /\ LinksTrack.contactsObj el''
                     = Some (LinksTrack.mkContacts (LinksTrack.contacts c)
                               (LinksTrack.maxNumberOfContacts c) (Some d2)
                               (LinksTrack.isHold c))))
  /\ (LinksTrack.isHold c = false ->
        LinksTrack.contactsObj (LinksTrack.mouseout el)
        = Some (LinksTrack.mkContacts (LinksTrack.contacts c)
                  (LinksTrack.maxNumberOfContacts c) None false)
        /\ LinksTrack.dispatched (LinksTrack.mouseout el)
           = LinksTrack.dispatched el ++ [LinksTrack.mkHighlight "mouseout" None]).
Proof.
  intros Hc. split; [|split].
  - intros Hh. unfold LinksTrack.mouseover, LinksTrack.mouseout.
    rewrite Hc, Hh. auto.
  - intros cs Hcs.
    assert (Hclick : forall el0 c0 d0 cs0,
              LinksTrack.contactsObj el0 = Some c0 ->
              LinksTrack.contacts_of d0 (LinksTrack.contacts c0) = Some cs0 ->
              exists el',
                LinksTrack.click d0 el0 = LinksTrack.Done el'
                /\ LinksTrack.contactsObj el'
                   = Some (LinksTrack.mkContacts (LinksTrack.contacts c0)
                             (LinksTrack.maxNumberOfContacts c0) (Some d0)
                             (negb (LinksTrack.isHold c0)))
                /\ LinksTrack.dispatched el'
                   = LinksTrack.dispatched el0
                       ++ [LinksTrack.getHighlightEvent "mouseover"
                             (Some (LinksTrack.js_sort (cs0 ++ [d0])))]).
    { intros el0 c0 d0 cs0 H0 H1.
      unfold LinksTrack.click, LinksTrack._dispatchSelectNode. rewrite H0.
      destruct (LinksTrack.isHold c0); simpl; rewrite H1;
        eexists; (split; [reflexivity|]);
        unfold LinksTrack.refresh; simpl;
        destruct (LinksTrack.contactPoints el0); simpl; auto. }
    destruct (Hclick el c d cs Hc Hcs) as (el' & H1 & H2 & H3).
    exists el'. split; [exact H1|]. split; [exact H2|]. split; [exact H3|].
    intros d2 cs2 Hcs2.
    destruct (Hclick el' _ d2 cs2 H2 Hcs2) as (el'' & K1 & K2 & _).
    exists el''. split; [exact K1|]. rewrite K2. simpl.
    rewrite negb_involutive. reflexivity.
  - intros Hh. unfold LinksTrack.mouseout. rewrite Hc, Hh.
    unfold LinksTrack.refresh. simpl.
    destruct (LinksTrack.contactPoints el); simpl; rewrite <- ?Hh; auto.
Qed.

(** Click on 9, then on 10: the hold is on and then off again, and 10 stays
    selected. *)
Lemma hold_pins_selection_witness :
  let c := LinksTrack.mkContacts [(9, [10; 1]); (10, [9]); (1, [9])]%nat 1 None false in
  let el := LinksTrack.mkElement (N 20)
              (constructor None zero None None zero zero) (Some c) true [] 0 in
  let el1 := LinksTrack.after (LinksTrack.click 9 el) in
  let el2 := LinksTrack.after (LinksTrack.click 10 el1) in
  (LinksTrack.mouseover 1 el1 = LinksTrack.Done el1
   /\ LinksTrack.mouseout el1 = el1)
  /\ LinksTrack.contactsObj el1
     = Some (LinksTrack.mkContacts [(9, [10; 1]); (10, [9]); (1, [9])]%nat 1 (Some 9%nat) true)
  /\ LinksTrack.contactsObj el2
     = Some (LinksTrack.mkContacts [(9, [10; 1]); (10, [9]); (1, [9])]%nat 1 (Some 10%nat) false).
Proof.
  split; [|by_evaluation].
  apply (hold_pins_selection
           (LinksTrack.after
              (LinksTrack.click 9
                 (LinksTrack.mkElement (N 20)
                    (constructor None zero None None zero zero)
                    (Some (LinksTrack.mkContacts
                             [(9, [10; 1]); (10, [9]); (1, [9])]%nat 1 None false))
                    true [] 0)))
           (LinksTrack.mkContacts [(9, [10; 1]); (10, [9]); (1, [9])]%nat 1 (Some 9%nat) true)
           1);
    reflexivity.
Defined.

(* ------------------------------------------------------------------ *)
(** ** nightingale-links: contacts and thresholds *)

(** X11.  Contacts follow the raw data.  After a successful assignment to
    [contacts] the element keeps the rows as given (parsed, for a string)
    and holds the contact object of the rows filtered by the current
    thresholds.  When the thresholds change, [willUpdate] filters the kept
    rows again, not the previous selection, so nothing is lost by tightening
    and relaxing a threshold.  [willUpdate] does nothing when neither
    threshold is among the changed properties, or when no data was ever
    assigned. *)
Theorem contacts_follow_raw_data
    (ContactObject : Type) (parseToRowData : string -> list (list num))
    (filterContacts : list (list num) -> num -> num -> list (list num))
    (getContactsObject : list (list num) -> ContactObject)
    (data : Links.LinksData)
    (st st' : Links.LinksState ContactObject) :
  Links.set_contacts ContactObject parseToRowData filterContacts
    getContactsObject data st = Links.Normal st' ->
  exists rows,
    (data = Links.DataArray rows
     \/ exists s, data = Links.DataString s /\ rows = parseToRowData s)
    /\ Links._rawData ContactObject st' = Some rows
    /\ Links.contacts ContactObject st'
       = Some (getContactsObject
                 (filterContacts rows (Links.minDistance ContactObject st)
                    (Links.minProbability ContactObject st)))
    /\ (forall d p changed,
          In "minDistance"%string changed \/ In "minProbability"%string changed ->
          let st2 := LinksUpdate.willUpdate ContactObject filterContacts
                       getContactsObject changed
                       (LinksUpdate.set_thresholds ContactObject d p st') in
          Links._rawData ContactObject st2 = Some rows
          /\ Links.contacts ContactObject st2
             = Some (getContactsObject (filterContacts rows d p)))
    /\ (forall changed st0,
          ~ In "minDistance"%string changed ->
          ~ In "minProbability"%string changed ->
          LinksUpdate.willUpdate ContactObject filterContacts getContactsObject
            changed st0 = st0)
    /\ (forall changed st0,
          Links._rawData ContactObject st0 = None ->
          LinksUpdate.willUpdate ContactObject filterContacts getContactsObject
            changed st0 = st0).
Proof.
  intros H. unfold Links.set_contacts in H.
  assert (Hmem : forall x changed, In x changed ->
                   existsb (String.eqb x) changed = true).
  { intros x changed Hin. apply existsb_exists. exists x.
    split; [exact Hin | apply String.eqb_refl]. }
  assert (Hnot : forall x changed, ~ In x changed ->
                   existsb (String.eqb x) changed = false).
  { intros x changed Hn. destruct (existsb _ _) eqn:E; [|reflexivity].
    apply existsb_exists in E. destruct E as (a & Hin & Heq).
    apply String.eqb_eq in Heq. subst a. contradiction. }
  assert (Hrest : forall rows,
            st' = Links.createTrack ContactObject
                    (Links.mkLinks ContactObject
                       (Links.minDistance ContactObject st)
                       (Links.minProbability ContactObject st) (Some rows)
                       (Some (getContactsObject
                                (filterContacts rows
                                   (Links.minDistance ContactObject st)
                                   (Links.minProbability ContactObject st))))
                       (Links.tracks_created ContactObject st)) ->
            Links._rawData ContactObject st' = Some rows
            /\ Links.contacts ContactObject st'
               = Some (getContactsObject
                         (filterContacts rows (Links.minDistance ContactObject st)
                            (Links.minProbability ContactObject st)))
            /\ (forall d p changed,
                  In "minDistance"%string changed
                  \/ In "minProbability"%string changed ->
                  let st2 := LinksUpdate.willUpdate ContactObject filterContacts
                               getContactsObject changed
                               (LinksUpdate.set_thresholds ContactObject d p st') in
                  Links._rawData ContactObject st2 = Some rows
                  /\ Links.contacts ContactObject st2
                     = Some (getContactsObject (filterContacts rows d p)))).
  { intros rows ->. split; [reflexivity|]. split; [reflexivity|].
    intros d p changed Hin. unfold LinksUpdate.willUpdate.
    assert (E : existsb (String.eqb "minDistance") changed
                || existsb (String.eqb "minProbability") changed = true).
    { destruct Hin as [Hin | Hin]; rewrite (Hmem _ _ Hin);
        [reflexivity | apply orb_true_r]. }
    rewrite E. simpl. split; reflexivity. }
  assert (Hidle : (forall changed st0,
                     ~ In "minDistance"%string changed ->
                     ~ In "minProbability"%string changed ->
                     LinksUpdate.willUpdate ContactObject filterContacts
                       getContactsObject changed st0 = st0)
                  /\ (forall changed st0,
                        Links._rawData ContactObject st0 = None ->
                        LinksUpdate.willUpdate ContactObject filterContacts
                          getContactsObject changed st0 = st0)).
  { split.
    - intros changed st0 H1 H2. unfold LinksUpdate.willUpdate.
      rewrite (Hnot _ _ H1), (Hnot _ _ H2). reflexivity.
    - intros changed st0 Hr. unfold LinksUpdate.willUpdate. rewrite Hr.
      destruct (_ || _); reflexivity. }
  destruct Hidle as (I1 & I2).
  destruct data as [s | rows |]; simpl in H; [| |discriminate].
  - injection H as H. exists (parseToRowData s).
    destruct (Hrest (parseToRowData s) (eq_sym H)) as (R1 & R2 & R3).
    split; [right; exists s; auto|]. repeat split; auto; apply R3; assumption.
  - injection H as H. exists rows.
    destruct (Hrest rows (eq_sym H)) as (R1 & R2 & R3).
    split; [left; reflexivity|]. repeat split; auto; apply R3; assumption.
Qed.

(** Rows kept as given, a filter that keeps the rows whose first number is at
    least the distance threshold: tightening to 5 and relaxing to 0 brings
    every row back. *)
Lemma contacts_follow_raw_data_witness :
  let keep := fun (rows : list (list num)) (d _ : num) =>
                filter (fun r => d <=? nth 0 r NaN) rows in
  let st := Links.mkLinks (list (list num)) zero (Fin (7 # 10)) None None 0 in
  let rows := [[N 3; N 8]; [N 6; N 9]] in
  exists st',
    Links.set_contacts (list (list num)) (fun _ => []) keep (fun r => r)
      (Links.DataArray rows) st = Links.Normal st'
    /\ Links.contacts _
         (LinksUpdate.willUpdate _ keep (fun r => r) ["minDistance"%string]
            (LinksUpdate.set_thresholds _ (N 5) (Fin (7 # 10)) st'))
       = Some [[N 6; N 9]]
    /\ Links.contacts _
         (LinksUpdate.willUpdate _ keep (fun r => r) ["minDistance"%string]
            (LinksUpdate.set_thresholds _ zero (Fin (7 # 10))
               (LinksUpdate.willUpdate _ keep (fun r => r) ["minDistance"%string]
                  (LinksUpdate.set_thresholds _ (N 5) (Fin (7 # 10)) st'))))
       = Some rows.
Proof.
  cbv zeta. eexists. split; [reflexivity|].
  destruct (contacts_follow_raw_data (list (list num)) (fun _ => [])
              (fun (rows : list (list num)) (d _ : num) =>
                 filter (fun r => d <=? nth 0 r NaN) rows)
              (fun r => r) (Links.DataArray [[N 3; N 8]; [N 6; N 9]])
              (Links.mkLinks (list (list num)) zero (Fin (7 # 10)) None None 0)
              _ eq_refl) as (rows & _ & _ & _ & H & _).
  split; vm_compute; reflexivity.
Defined.

(* ------------------------------------------------------------------ *)
(** ** nightingale-variation: data that is taken away *)

(** X12.  Data that is taken away stays processed.  [processData] replaces
    the processed data only when there is something to process.  Handing
    the element [null] (or, in protein-API mode, data whose transformation
    comes back empty) after real data leaves [data] empty but keeps the
    processed data of the earlier call; only new data replaces it. *)
Theorem cleared_data_keeps_processed
    (Data Processed : Type) (transformData : option Data -> option Data)
    (processVariants : Data -> Processed)
    (st : Variation.VariationState Data Processed) (d : Data) :
  let process := Variation.processData Data Processed transformData processVariants in
  let raw := if Variation.proteinAPI Data Processed st then transformData (Some d)
             else Some d in
  forall t, raw = Some t ->
  Variation.processedData Data Processed (process (Some d) st)
  = Some (processVariants t)
  /\ (forall x,
        (if Variation.proteinAPI Data Processed st then transformData x else x)
        = None ->
        Variation.data Data Processed (process x (process (Some d) st)) = x
        /\ Variation.processedData Data Processed
             (process x (process (Some d) st))
           = Some (processVariants t))
  /\ (forall d2 t2,
        (if Variation.proteinAPI Data Processed st then transformData (Some d2)
         else Some d2) = Some t2 ->
        Variation.processedData Data Processed
          (process (Some d2) (process (Some d) st))
        = Some (processVariants t2)).
Proof.
  intros process raw t Ht. subst process raw.
  unfold Variation.processData. simpl.
  destruct (Variation.proteinAPI Data Processed st) eqn:Hapi; simpl.
  - rewrite Ht. simpl. split; [reflexivity|]. split.
    + intros x Hx. rewrite Hx. simpl. auto.
    + intros d2 t2 H2. rewrite H2. reflexivity.
  - injection Ht as ->. split; [reflexivity|]. split.
    + intros x Hx. rewrite Hx. simpl. auto.
    + intros d2 t2 H2. injection H2 as ->. reflexivity.
Qed.

(** Plain data (no protein-API transformation), processed by doubling. *)
Lemma cleared_data_keeps_processed_witness :
  let st := Variation.mkVariation nat nat false None None in
  let process := Variation.processData nat nat (fun x => x) (fun n => (2 * n)%nat) in
  Variation.data nat nat (process None (process (Some 21%nat) st)) = None
  /\ Variation.processedData nat nat (process None (process (Some 21%nat) st))
     = Some 42%nat.
Proof.
  destruct (cleared_data_keeps_processed nat nat (fun x => x)
              (fun n => (2 * n)%nat)
              (Variation.mkVariation nat nat false None None) 21%nat
              21%nat eq_refl) as (_ & H & _).
  apply (H None). reflexivity.
Defined.

(* ------------------------------------------------------------------ *)
(** ** Re-application and late connection *)

Lemma _applyZoomTranslation_keeps (st : State) (sv : Surface) (o : ScaleLinear)
    (z : ZoomBehavior) :
  svg st = Some sv -> _originXScale st = Some o -> zoom st = Some z ->
  svg (_applyZoomTranslation st)
  = Some (mkSurface (zoom_bound sv) (Some (programmatic_transform st o)))
  /\ _originXScale (_applyZoomTranslation st) = Some o
  /\ zoom (_applyZoomTranslation st) = Some z
  /\ length (_applyZoomTranslation st) = length st
  /\ display_start (_applyZoomTranslation st) = display_start st
  /\ display_end (_applyZoomTranslation st) = display_end st.
Proof.
  unfold svg, zoom. intros Hsv Ho Hz.
  unfold _applyZoomTranslation, svg, zoom. simpl. rewrite Hsv, Ho. simpl.
  rewrite Hz. unfold call_zoom_transform, programmatic_transform.
  match goal with |- context [zoomed ?t ?s] =>
    destruct (zoomed_scheduler t s) as (_ & _ & H1 & _ & H2);
    destruct (zoomed_props t s) as (P1 & P2 & P3);
    assert (H3 : _zoom (zoomed t s) = _zoom s)
  end.
  { unfold zoomed, xScale. simpl. rewrite Ho. simpl.
    match goal with |- context [domain ?d] => destruct (domain d) end.
    reflexivity. }
  simpl. rewrite H1, H2, H3, P1, P2, P3. simpl. rewrite Ho, Hz.
  repeat split; reflexivity.
Qed.

(** X13.  Re-applying is idempotent.  With a surface, an origin scale and
    the zoom behaviour in place, a second programmatic application leaves
    the transform on the surface and the live scale exactly as the first one
    set them; it only runs the zoom listener and renders again. *)
Theorem reapply_is_idempotent (st : State) (sv : Surface) (o : ScaleLinear)
    (z : ZoomBehavior) :
  svg st = Some sv -> _originXScale st = Some o -> zoom st = Some z ->
  let st1 := _applyZoomTranslation st in
  let st2 := _applyZoomTranslation st1 in
  current_transform st2 = current_transform st1
  /\ xScale st2 = xScale st1
  /\ _originXScale st2 = _originXScale st1
  /\ effects st2
     = effects st1
         ++ [ApplyEntered; ZoomEvent (programmatic_transform st o); Rendered].
Proof.
  intros Hsv Ho Hz. cbv zeta.
  destruct (_applyZoomTranslation_keeps st sv o z Hsv Ho Hz)
    as (K1 & K2 & K3 & K4 & K5 & K6).
  destruct (_applyZoomTranslation_result st sv o z Hsv Ho Hz) as (A1 & A2 & _).
  destruct (_applyZoomTranslation_result _ _ o z K1 K2 K3) as (B1 & B2 & _).
  destruct (_applyZoomTranslation_keeps _ _ o z K1 K2 K3) as (_ & L2 & _).
  assert (E : programmatic_transform (_applyZoomTranslation st) o
              = programmatic_transform st o).
  { unfold programmatic_transform. rewrite K4, K5, K6. reflexivity. }
  rewrite B1, B2, E, A1, A2, L2, K2.
  repeat split.
  rewrite (_applyZoomTranslation_effects (_applyZoomTranslation st)).
  unfold apply_effects. rewrite K1, K2, K3.
  fold (programmatic_transform (_applyZoomTranslation st) o). rewrite E.
  reflexivity.
Qed.

(** The range 250..260 applied twice. *)
Lemma reapply_is_idempotent_witness :
  let st := connected (Some (N 1000)) (N 500) (Some (N 250)) (Some (N 260))
              zero zero in
  let st1 := _applyZoomTranslation st in
  let st2 := _applyZoomTranslation st1 in
  current_transform st2 = current_transform st1
  /\ xScale st2 = xScale st1
  /\ _originXScale st2 = _originXScale st1
  /\ effects st2
     = effects st1
         ++ [ApplyEntered;
             ZoomEvent (programmatic_transform st (mkScale (N 1, N 1001) (N 0, N 500)));
             Rendered].
Proof.
  apply (reapply_is_idempotent
           (connected (Some (N 1000)) (N 500) (Some (N 250)) (Some (N 260))
              zero zero)
           (mkSurface true (Some zoomIdentity))
           (mkScale (N 1, N 1001) (N 0, N 500))
           (mkZoom (one, PInf) ((zero, zero), (N 500, zero))
              ((zero, zero), (N 500, zero))));
    vm_compute; reflexivity.
Defined.

(** X14.  A surface assigned before the element is connected is lost for
    good.  The setter drops it, and neither [connectedCallback] nor the next
    animation frame brings it back: the element ends up connected, with its
    scale built, but without a surface and without any transform ever
    applied, until the surface is assigned again. *)
Theorem early_surface_is_lost
    (super : string -> option string -> option string -> State -> State)
    (st : State) (v : option Surface) :
  zoom st = None -> svg st = None -> frames st = 0%nat ->
  let st' := run_ops super [OpSetSvg v; OpConnect; OpFrame] st in
  svg st' = None
  /\ current_transform st' = None
  /\ applied (effects st') = applied (effects st)
  /\ (exists z, zoom st' = Some z)
  /\ xScale st' = xScale (_updateScaleDomain st)
  /\ (forall sv, svg (run_ops super [OpSetSvg (Some sv)] st')
                 = Some (mkSurface true
                           (Some (match node_zoom sv with
                                  | Some t => t
                                  | None => zoomIdentity
                                  end)))).
Proof.
  unfold zoom, svg. intros Hz Hs Hf. cbv zeta. simpl run_ops.
  assert (E : set_svg v st = st).
  { unfold set_svg. rewrite Hz. destruct v; reflexivity. }
  rewrite E. unfold run_frame. simpl frames. rewrite Hf. simpl Nat.iter.
  unfold current_transform, svg, zoom, xScale. simpl. rewrite Hs.
  split; [reflexivity|]. split; [reflexivity|].
  split; [rewrite !applied_app; simpl; lia|].
  split; [eexists; reflexivity|]. split; [reflexivity|].
  intros sv. unfold applyZoomTranslation.
  match goal with |- context [aboutToApply ?s] => destruct (aboutToApply s) end;
    reflexivity.
Qed.

(** A freshly constructed element given a surface too early. *)
Lemma early_surface_is_lost_witness :
  let st := constructor (Some (N 1000)) (N 500) (Some (N 1)) (Some (N 1000))
              zero zero in
  let st' := run_ops (fun _ _ _ s => s)
               [OpSetSvg (Some (mkSurface false None)); OpConnect; OpFrame] st in
  svg st' = None
  /\ current_transform st' = None
  /\ applied (effects st') = applied (effects st).
Proof.
  destruct (early_surface_is_lost (fun _ _ _ s => s)
              (constructor (Some (N 1000)) (N 500) (Some (N 1)) (Some (N 1000))
                 zero zero)
              (Some (mkSurface false None)) eq_refl eq_refl eq_refl)
    as (H1 & H2 & H3 & _).
  split; [exact H1|]. split; [exact H2 | exact H3].
Defined.
